(** * Firmament: the Quincy-style flow scheduler core

    A shallow embedding of
      - [scheduling/flow/flow_graph_node.h]   (node kinds and predicates),
      - [scheduling/flow/dimacs_change_arc.h] (the CHANGE_ARC record),
      - [sim/trace-extract/google_trace_simulator.h] (task identifiers),
      - [scheduling/quincy_scheduler.cc]      (the scheduler itself),
    and the properties of them that the specification states.

    Conventions.
      - [uint64_t] and [size_t] values are [N]; where the code does
        arithmetic on them the wrap-around modulo [2^64] is written out.
        [int64_t] and [int32_t] values are [Z].
      - A pointer into one of the scheduler's maps is modelled by the key of
        the entry it points to, a null pointer by [None].
      - An abort of the process ([LOG(FATAL)], a failed [CHECK_NOTNULL]) and
        the dereference of a null pointer are results of their own, see
        [Abort]. *)

From Stdlib Require Import ZArith Lia.
From stdpp Require Import base gmap sets list strings sorting.

Local Open Scope N_scope.

(** ** Identifier types ([base/types.h], not among the sources)

    [TaskID_t] is a 64-bit unsigned integer; job, resource and equivalence
    class identifiers are opaque values of which only equality is used. *)

Definition TaskID_t := N.
Definition JobID_t := N.
Definition ResourceID_t := N.
Definition EquivClass_t := N.

Definition UINT64_MODULUS : N := 2 ^ 64.

(** ** How a call can end without returning *)

Inductive Abort : Type :=
| CHECK_NOTNULL_failed (what : string)   (* CHECK_NOTNULL(p) with p null *)
| LOG_FATAL (msg : string) (arg : Z)     (* LOG(FATAL) << msg << arg *)
| Undefined (what : string)              (* a null or dangling pointer is dereferenced *)
| Deadlock.                              (* a held, non-recursive mutex is locked again *)

(** [Abort] is fatal when the process was ended on purpose. *)
Definition is_fatal (a : Abort) : bool :=
  match a with
  | CHECK_NOTNULL_failed _ | LOG_FATAL _ _ => true
  | Undefined _ | Deadlock => false
  end.

(** ** Descriptors (protocol buffers, declared outside the sources)

    Only the fields and enumerators that the modelled code reads or writes
    are represented. The enumerators that the code never names are folded
    into one constructor carrying their number. *)

Module TaskDescriptor.
Inductive TaskState : Type :=
| ASSIGNED
| RUNNING
| OTHER_STATE (tag : N).

Record t : Type := mk {
  uid : TaskID_t;
  job_id : string;
  state : TaskState;
}.
End TaskDescriptor.

Module JobDescriptor.
Inductive JobState : Type :=
| RUNNING
| OTHER_STATE (tag : N).

Record t : Type := mk {
  uuid : string;
  state : JobState;
}.

Definition set_state (st : JobState) (jd : t) : t :=
  {| uuid := uuid jd; state := st |}.
End JobDescriptor.

Module ResourceDescriptor.
Record t : Type := mk {
  uuid : string;
}.
End ResourceDescriptor.

Module ResourceStatus.
Record t : Type := mk {
  descriptor : ResourceDescriptor.t;
}.
End ResourceStatus.

#[warnings="-register-all"]
Inductive ResourceTopologyNodeDescriptor : Type :=
| RTND (resource_desc : ResourceDescriptor.t)
       (children : list ResourceTopologyNodeDescriptor).

#[global] Instance TaskState_eq_dec : EqDecision TaskDescriptor.TaskState.
Proof. solve_decision. Defined.
#[global] Instance JobState_eq_dec : EqDecision JobDescriptor.JobState.
Proof. solve_decision. Defined.

(** ** Flow graph arcs *)

(** Modelled from the spec: [scheduling/flow/flow_graph_arc.h] is not among
    the sources; section 3 of the specification lists the arc types. *)
Inductive FlowGraphArcType : Type :=
| TASK_TO_EQUIV
| TASK_TO_RES
| RES_TO_RES
| TASK_TO_UNSCHED
| UNSCHED_AGG_TO_SINK
| RES_TO_SINK
| RUNNING_ARC
| OTHER.

Module FlowGraphArc.
(** Modelled from the spec: [scheduling/flow/flow_graph_arc.h] is not among
    the sources; section 3 of the specification gives an arc its endpoints
    [src -> dst], its type, the capacity bounds [cap_lower_bound <=
    cap_upper_bound] and a signed cost. *)
Record t : Type := mk {
  src_ : N;
  dst_ : N;
  cap_lower_bound_ : N;
  cap_upper_bound_ : N;
  cost_ : Z;
  type_ : FlowGraphArcType;
}.
End FlowGraphArc.

(** ** Flow graph nodes ([flow_graph_node.h]) *)

Inductive FlowNodeType : Type :=
| ROOT_TASK
| SCHEDULED_TASK
| UNSCHEDULED_TASK
| JOB_AGGREGATOR
| SINK
| EQUIVALENCE_CLASS
| COORDINATOR
| MACHINE
| NUMA_NODE
| SOCKET
| CACHE
| CORE
| PU.

#[global] Instance FlowNodeType_eq_dec : EqDecision FlowNodeType.
Proof. solve_decision. Defined.

(** The enumerators' values, as the header numbers them. *)
Definition FlowNodeType_value (ty : FlowNodeType) : Z :=
  match ty with
  | ROOT_TASK => 0 | SCHEDULED_TASK => 1 | UNSCHEDULED_TASK => 2
  | JOB_AGGREGATOR => 3 | SINK => 4 | EQUIVALENCE_CLASS => 5
  | COORDINATOR => 6 | MACHINE => 7 | NUMA_NODE => 8 | SOCKET => 9
  | CACHE => 10 | CORE => 11 | PU => 12
  end%Z.

Module FlowGraphNode.
Record t : Type := mk {
  id_ : N;
  excess_ : Z;
  type_ : FlowNodeType;
  job_id_ : JobID_t;
  resource_id_ : ResourceID_t;
  rd_ptr_ : option ResourceID_t;
  td_ptr_ : option TaskID_t;
  ec_id_ : EquivClass_t;
  comment_ : string;
  outgoing_arc_map_ : gmap N FlowGraphArc.t;
  incoming_arc_map_ : gmap N FlowGraphArc.t;
  visited_ : N;
}.

Definition set_type (ty : FlowNodeType) (n : t) : t :=
  {| id_ := id_ n; excess_ := excess_ n; type_ := ty;
     job_id_ := job_id_ n; resource_id_ := resource_id_ n;
     rd_ptr_ := rd_ptr_ n; td_ptr_ := td_ptr_ n; ec_id_ := ec_id_ n;
     comment_ := comment_ n;
     outgoing_arc_map_ := outgoing_arc_map_ n;
     incoming_arc_map_ := incoming_arc_map_ n;
     visited_ := visited_ n |}.

Definition IsEquivalenceClassNode (n : t) : bool :=
  bool_decide (type_ n = EQUIVALENCE_CLASS).

Definition IsResourceNode (n : t) : bool :=
  bool_decide (type_ n = COORDINATOR) ||
  bool_decide (type_ n = MACHINE) ||
  bool_decide (type_ n = NUMA_NODE) ||
  bool_decide (type_ n = SOCKET) ||
  bool_decide (type_ n = CACHE) ||
  bool_decide (type_ n = CORE) ||
  bool_decide (type_ n = PU).

Definition IsTaskNode (n : t) : bool :=
  bool_decide (type_ n = ROOT_TASK) ||
  bool_decide (type_ n = SCHEDULED_TASK) ||
  bool_decide (type_ n = UNSCHEDULED_TASK).

End FlowGraphNode.

(** ** The CHANGE_ARC record ([dimacs_change_arc.h]) *)

Module DIMACSChangeArc.
Record t : Type := mk {
  src_ : N;
  dst_ : N;
  cap_lower_bound_ : N;
  cap_upper_bound_ : N;
  cost_ : Z;
  type_ : FlowGraphArcType;
  old_cost_ : Z;
}.

(** Modelled from the spec: the header only declares the constructor
  [DIMACSChangeArc(const FlowGraphArc& arc, int64_t old_cost)], its body
  is not among the sources. Section 4.4: "For CHANGE_ARC the record
  carries (src, dst, cap_lower, cap_upper, new_cost, arc_type,
  old_cost)", the new cost being the cost the arc has now. *)
Definition new (arc : FlowGraphArc.t) (old_cost : Z) : t :=
  {| src_ := FlowGraphArc.src_ arc;
     dst_ := FlowGraphArc.dst_ arc;
     cap_lower_bound_ := FlowGraphArc.cap_lower_bound_ arc;
     cap_upper_bound_ := FlowGraphArc.cap_upper_bound_ arc;
     cost_ := FlowGraphArc.cost_ arc;
     type_ := FlowGraphArc.type_ arc;
     old_cost_ := old_cost |}.
End DIMACSChangeArc.

(** ** Task identifiers of the trace simulator ([google_trace_simulator.h]) *)

Module Sim.
Record TaskIdentifier : Type := mkTaskIdentifier {
  job_id : N;
  task_index : N;
}.

(** [TaskIdentifier::operator==] *)
Definition TaskIdentifier_eq (a other : TaskIdentifier) : bool :=
  (job_id a =? job_id other) && (task_index a =? task_index other).

(** [TaskIdentifierHasher::operator()], over any [std::hash<uint64_t>];
  the product and the sum are taken in [size_t]. *)
Definition TaskIdentifierHasher (hash_uint64 : N -> N) (key : TaskIdentifier) : N :=
  (((hash_uint64 (job_id key) * 17) mod UINT64_MODULUS
    + hash_uint64 (task_index key)) mod UINT64_MODULUS).
End Sim.

(** ** Scheduling deltas *)

Module SchedulingDelta.
(** Modelled from the spec: the message is declared in a protocol buffer
    file outside the sources; section 6 gives its shape,
    [{ type: PLACE|NOOP|PREEMPT|MIGRATE, task_id, resource_id, actioned }]. *)
Inductive ChangeType : Type :=
| NOOP
| PLACE
| PREEMPT
| MIGRATE.

Record t : Type := mk {
  type : ChangeType;
  task_id : TaskID_t;
  resource_id : string;
  actioned : bool;
}.

Definition set_actioned (b : bool) (d : t) : t :=
  {| type := type d; task_id := task_id d; resource_id := resource_id d;
     actioned := b |}.
End SchedulingDelta.

#[global] Instance ChangeType_eq_dec : EqDecision SchedulingDelta.ChangeType.
Proof. solve_decision. Defined.

(** ** Cost models

    The classes that the scheduler's constructor instantiates (what it
    passes them are the scheduler's own maps and the knowledge base), and
    the values of [FlowSchedulingCostModelType] as the help text of the flag
    [flow_scheduling_cost_model] documents them:
    "0 = TRIVIAL, 1 = RANDOM, 2 = SJF, 3 = QUINCY, 4 = WHARE, 5 = COCO". *)

Inductive CostModel : Type :=
| TrivialCostModel
| RandomCostModel
| SJFCostModel
| QuincyCostModel.

Definition COST_MODEL_TRIVIAL : Z := 0.
Definition COST_MODEL_RANDOM : Z := 1.
Definition COST_MODEL_SJF : Z := 2.
Definition COST_MODEL_QUINCY : Z := 3.
Definition COST_MODEL_WHARE : Z := 4.
Definition COST_MODEL_COCO : Z := 5.

(** ** The flow graph, as far as the scheduler looks into it *)

Module FlowGraph.
(** Modelled from the spec: the class [FlowGraph] is not among the sources.
    Section 4.3 has it own the node set and be built over one cost model. *)
Record t : Type := mk {
  cost_model_ : CostModel;
  node_map_ : gmap N FlowGraphNode.t;
}.

(** Modelled from the spec: the accessor [node(id)] of section 4.3, a
    pointer to the node of that id, null when there is none. *)
Definition Node (fg : t) (id : N) : option FlowGraphNode.t :=
  node_map_ fg !! id.

(** Modelled from the spec: the accessor [num_nodes()] of section 4.3, the
    number of nodes in the node set. *)
Definition NumNodes (fg : t) : N :=
  N.of_nat (size (node_map_ fg)).

(** A write through the pointer that [Node] returns. *)
Definition set_node (id : N) (n : FlowGraphNode.t) (fg : t) : t :=
  {| cost_model_ := cost_model_ fg; node_map_ := <[id := n]> (node_map_ fg) |}.
End FlowGraph.

(** ** The state of the base class [EventDrivenScheduler]

    The maps that [QuincyScheduler] reaches through the members it
    inherits. *)

Module EventDrivenScheduler.
Record t : Type := mk {
  job_map_ : gmap JobID_t JobDescriptor.t;
  resource_map_ : gmap ResourceID_t ResourceStatus.t;
  task_map_ : gmap TaskID_t TaskDescriptor.t;
  task_bindings_ : gmap TaskID_t ResourceID_t;
}.

Definition set_job_map (jm : gmap JobID_t JobDescriptor.t) (e : t) : t :=
  {| job_map_ := jm; resource_map_ := resource_map_ e;
     task_map_ := task_map_ e; task_bindings_ := task_bindings_ e |}.

Definition set_task_bindings (tb : gmap TaskID_t ResourceID_t) (e : t) : t :=
  {| job_map_ := job_map_ e; resource_map_ := resource_map_ e;
     task_map_ := task_map_ e; task_bindings_ := tb |}.
End EventDrivenScheduler.

(** ** The collaborators of the scheduler

    Everything that [quincy_scheduler.cc] calls and that is defined outside
    the sources: helper functions, the base class, the flow graph's
    mutators and the dispatcher with the solver behind it. Each is an
    arbitrary function over the part of the state that its receiver and its
    arguments let it reach. The flow graph's cost model may hold pointers to
    the scheduler's maps, so its methods read the base class's state. *)

Class Collaborators : Type := {
  (* misc/utils.h *)
  ResourceIDFromString : string -> ResourceID_t;
  JobIDFromString : string -> JobID_t;
  (* EventDrivenScheduler *)
  EventDrivenScheduler_BindTaskToResource :
    TaskID_t -> ResourceID_t -> EventDrivenScheduler.t -> EventDrivenScheduler.t;
  EventDrivenScheduler_RunnableTasksForJob :
    JobDescriptor.t -> EventDrivenScheduler.t ->
    gset TaskID_t * EventDrivenScheduler.t;
  (* FlowGraph *)
  FlowGraph_new : CostModel -> FlowGraph.t;
  FlowGraph_AddResourceTopology :
    EventDrivenScheduler.t -> ResourceTopologyNodeDescriptor ->
    FlowGraph.t -> FlowGraph.t;
  FlowGraph_UpdateResourceTopology :
    EventDrivenScheduler.t -> ResourceTopologyNodeDescriptor ->
    FlowGraph.t -> FlowGraph.t;
  FlowGraph_AddOrUpdateJobNodes :
    EventDrivenScheduler.t -> JobDescriptor.t -> FlowGraph.t -> FlowGraph.t;
  FlowGraph_UpdateArcsForBoundTask :
    EventDrivenScheduler.t -> TaskID_t -> ResourceID_t ->
    FlowGraph.t -> FlowGraph.t;
  (* QuincyDispatcher; [Run] yields the multimap in iteration order *)
  QuincyDispatcher : Type;
  QuincyDispatcher_new : FlowGraph.t -> bool -> QuincyDispatcher;
  QuincyDispatcher_Run :
    QuincyDispatcher -> EventDrivenScheduler.t -> FlowGraph.t ->
    list (N * N) * QuincyDispatcher * FlowGraph.t;
  QuincyDispatcher_NodeBindingToSchedulingDelta :
    QuincyDispatcher -> FlowGraphNode.t -> FlowGraphNode.t ->
    gmap TaskID_t ResourceID_t ->
    SchedulingDelta.t * gmap TaskID_t ResourceID_t;
}.

(** ** Log output

    [LOG(INFO)] and [LOG(WARNING)] records, each the list of the items
    streamed into it. [VLOG(1)] output depends on the verbosity level and is
    left out. *)

Inductive Severity : Type :=
| INFO
| WARNING.

Inductive LogItem : Type :=
| Str (s : string)
| Num (n : N).

Definition LogRecord : Type := Severity * list LogItem.

Section Scheduler.
Context `{Collaborators}.

(** ** The scheduler's state *)

Record QuincyScheduler : Type := mkQuincyScheduler {
  base : EventDrivenScheduler.t;
  flow_graph_ : FlowGraph.t;
  quincy_dispatcher_ : option QuincyDispatcher;
  scheduling_lock_ : bool;
  log_ : list LogRecord;
}.

Definition set_base (e : EventDrivenScheduler.t) (s : QuincyScheduler) :=
  {| base := e; flow_graph_ := flow_graph_ s;
     quincy_dispatcher_ := quincy_dispatcher_ s;
     scheduling_lock_ := scheduling_lock_ s; log_ := log_ s |}.

Definition set_flow_graph (fg : FlowGraph.t) (s : QuincyScheduler) :=
  {| base := base s; flow_graph_ := fg;
     quincy_dispatcher_ := quincy_dispatcher_ s;
     scheduling_lock_ := scheduling_lock_ s; log_ := log_ s |}.

Definition set_quincy_dispatcher (d : option QuincyDispatcher) (s : QuincyScheduler) :=
  {| base := base s; flow_graph_ := flow_graph_ s;
     quincy_dispatcher_ := d;
     scheduling_lock_ := scheduling_lock_ s; log_ := log_ s |}.

Definition set_scheduling_lock (b : bool) (s : QuincyScheduler) :=
  {| base := base s; flow_graph_ := flow_graph_ s;
     quincy_dispatcher_ := quincy_dispatcher_ s;
     scheduling_lock_ := b; log_ := log_ s |}.

Definition add_log (r : LogRecord) (s : QuincyScheduler) :=
  {| base := base s; flow_graph_ := flow_graph_ s;
     quincy_dispatcher_ := quincy_dispatcher_ s;
     scheduling_lock_ := scheduling_lock_ s; log_ := log_ s ++ [r] |}.

(** ** Member functions run in a state and abort monad *)

Definition M (A : Type) : Type := QuincyScheduler -> Abort + (A * QuincyScheduler).

Definition ret {A : Type} (a : A) : M A := fun s => inr (a, s).

Definition bind {A B : Type} (m : M A) (k : A -> M B) : M B :=
  fun s => match m s with
           | inl e => inl e
           | inr (a, s') => k a s'
           end.

Definition abort {A : Type} (e : Abort) : M A := fun _ => inl e.

Definition gets {A : Type} (f : QuincyScheduler -> A) : M A := fun s => inr (f s, s).

Definition modify (f : QuincyScheduler -> QuincyScheduler) : M unit :=
  fun s => inr (tt, f s).

End Scheduler.

Declare Scope sched_scope.
Delimit Scope sched_scope with sched.
Notation "x <- m ;; k" := (bind m (fun x => k))
  (at level 100, m at next level, right associativity) : sched_scope.
Notation "m ;;; k" := (bind m (fun _ => k))
  (at level 100, right associativity) : sched_scope.

Section Operations.
Context `{Collaborators}.
Local Open Scope sched_scope.

Definition LOG (sev : Severity) (items : list LogItem) : M unit :=
  modify (add_log (sev, items)).

(** [CHECK_NOTNULL(p)] *)
Definition CHECK_NOTNULL {A : Type} (what : string) (p : option A) : M A :=
  match p with
  | Some a => ret a
  | None => abort (CHECK_NOTNULL_failed what)
  end.

(** [*p] and [p->...] without a check *)
Definition deref {A : Type} (what : string) (p : option A) : M A :=
  match p with
  | Some a => ret a
  | None => abort (Undefined what)
  end.

(** [boost::lock_guard<boost::mutex> lock(scheduling_lock_)]: taken where
    the guard is declared, given back where its scope ends. *)
Definition lock_scheduling_lock : M unit :=
  held <- gets scheduling_lock_ ;;
  if held : bool then abort Deadlock else modify (set_scheduling_lock true).

Definition unlock_scheduling_lock : M unit :=
  modify (set_scheduling_lock false).

(** ** [QuincyScheduler::UpdateResourceTopology] *)

Definition UpdateResourceTopology (root : ResourceTopologyNodeDescriptor) : M unit :=
  num_nodes <- gets (fun s => FlowGraph.NumNodes (flow_graph_ s)) ;;
  if num_nodes =? 1
  then modify (fun s =>
         set_flow_graph (FlowGraph_AddResourceTopology (base s) root (flow_graph_ s)) s)
  else modify (fun s =>
         set_flow_graph (FlowGraph_UpdateResourceTopology (base s) root (flow_graph_ s)) s).

(** ** [QuincyScheduler::QuincyScheduler]

    [eds] is the base-class subobject as its own constructor leaves it,
    [params] the text of [parameters_.ShortDebugString()]. The [switch]
    over the flag comes first; its [default] branch ends the process. *)

Definition select_cost_model (FLAGS_flow_scheduling_cost_model : Z) : Abort + CostModel :=
  if (FLAGS_flow_scheduling_cost_model =? COST_MODEL_TRIVIAL)%Z then inr TrivialCostModel
  else if (FLAGS_flow_scheduling_cost_model =? COST_MODEL_RANDOM)%Z then inr RandomCostModel
  else if (FLAGS_flow_scheduling_cost_model =? COST_MODEL_SJF)%Z then inr SJFCostModel
  else if (FLAGS_flow_scheduling_cost_model =? COST_MODEL_QUINCY)%Z then inr QuincyCostModel
  else inl (LOG_FATAL "Unknown flow scheduling cost model specificed "
                      FLAGS_flow_scheduling_cost_model).

Definition QuincyScheduler_new
    (FLAGS_flow_scheduling_cost_model : Z)
    (eds : EventDrivenScheduler.t)
    (resource_topology : ResourceTopologyNodeDescriptor)
    (params : string) : Abort + QuincyScheduler :=
  match select_cost_model FLAGS_flow_scheduling_cost_model with
  | inl e => inl e
  | inr cost_model =>
      let this :=
        {| base := eds;
           flow_graph_ := FlowGraph_new cost_model;
           quincy_dispatcher_ := None;
           scheduling_lock_ := false;
           log_ := [] |} in
      match (LOG INFO [Str "QuincyScheduler initiated; parameters: "; Str params] ;;;
             UpdateResourceTopology resource_topology ;;;
             modify (fun s =>
               set_quincy_dispatcher
                 (Some (QuincyDispatcher_new (flow_graph_ s) false)) s)) this with
      | inl e => inl e
      | inr (_, this) => inr this
      end
  end.

(** The flow graph that the constructor leaves: the fresh graph over the
    chosen cost model, after the first topology update. *)
Definition initial_flow_graph (cm : CostModel) (eds : EventDrivenScheduler.t)
    (root : ResourceTopologyNodeDescriptor) : FlowGraph.t :=
  if FlowGraph.NumNodes (FlowGraph_new cm) =? 1
  then FlowGraph_AddResourceTopology eds root (FlowGraph_new cm)
  else FlowGraph_UpdateResourceTopology eds root (FlowGraph_new cm).

(** ** [QuincyScheduler::ApplySchedulingDeltas]

    The vector holds pointers to deltas; it is modelled by the list of the
    deltas pointed to, and [set_actioned] by handing the changed list back
    with the count. [PlaceTask] is the block under
    [if (delta->type() == SchedulingDelta::PLACE)] up to the tagging of the
    job. The pointers [td] and [rs] stand for the entries of [task_id] and
    [res_id]; [td->job_id()] is read after the binding, from the entry as
    it is then. *)

Definition PlaceTask (task_id : TaskID_t) (res_id : ResourceID_t) : M unit :=
  td <- gets (fun s => EventDrivenScheduler.task_map_ (base s) !! task_id) ;;
  rs <- gets (fun s => EventDrivenScheduler.resource_map_ (base s) !! res_id) ;;
  _ <- CHECK_NOTNULL "td" td ;;
  _ <- CHECK_NOTNULL "rs" rs ;;
  modify (fun s =>
    set_base (EventDrivenScheduler_BindTaskToResource task_id res_id (base s)) s) ;;;
  modify (fun s =>
    set_flow_graph
      (FlowGraph_UpdateArcsForBoundTask (base s) task_id res_id (flow_graph_ s)) s) ;;;
  td <- bind (gets (fun s => EventDrivenScheduler.task_map_ (base s) !! task_id))
             (deref "td") ;;
  let job_id := JobIDFromString (TaskDescriptor.job_id td) in
  jd <- bind (gets (fun s => EventDrivenScheduler.job_map_ (base s) !! job_id))
             (deref "jd") ;;
  if decide (JobDescriptor.state jd <> JobDescriptor.RUNNING)
  then modify (fun s =>
         set_base
           (EventDrivenScheduler.set_job_map
              (<[job_id := JobDescriptor.set_state JobDescriptor.RUNNING jd]>
                 (EventDrivenScheduler.job_map_ (base s)))
              (base s)) s)
  else ret tt.

Fixpoint ApplySchedulingDeltas_from
    (deltas : list SchedulingDelta.t) (num_scheduled : N)
    : M (N * list SchedulingDelta.t) :=
  match deltas with
  | [] => ret (num_scheduled, [])
  | it :: rest =>
      let task_id := SchedulingDelta.task_id it in
      let res_id := ResourceIDFromString (SchedulingDelta.resource_id it) in
      if decide (SchedulingDelta.type it = SchedulingDelta.PLACE)
      then
        PlaceTask task_id res_id ;;;
        let num_scheduled := (num_scheduled + 1) mod UINT64_MODULUS in
        let it := SchedulingDelta.set_actioned true it in
        r <- ApplySchedulingDeltas_from rest num_scheduled ;;
        ret (fst r, it :: snd r)
      else
        r <- ApplySchedulingDeltas_from rest num_scheduled ;;
        ret (fst r, it :: snd r)
  end.

Definition ApplySchedulingDeltas (deltas : list SchedulingDelta.t)
    : M (N * list SchedulingDelta.t) :=
  ApplySchedulingDeltas_from deltas 0.

(** ** [QuincyScheduler::RunSchedulingIteration] *)

(** [quincy_dispatcher_->Run()] *)
Definition RunDispatcher : M (list (N * N)) :=
  d <- bind (gets quincy_dispatcher_) (deref "quincy_dispatcher_") ;;
  s <- gets id ;;
  let r := QuincyDispatcher_Run d (base s) (flow_graph_ s) in
  modify (fun s => set_quincy_dispatcher (Some (snd (fst r)))
                     (set_flow_graph (snd r) s)) ;;;
  ret (fst (fst r)).

(** The first loop: one fresh delta for each task mapping. *)
Fixpoint BuildDeltas (task_mappings : list (N * N)) (deltas : list SchedulingDelta.t)
    : M (list SchedulingDelta.t) :=
  match task_mappings with
  | [] => ret deltas
  | it :: rest =>
      d <- bind (gets quincy_dispatcher_) (deref "quincy_dispatcher_") ;;
      src <- bind (gets (fun s => FlowGraph.Node (flow_graph_ s) (fst it)))
                  (deref "Node(it->first)") ;;
      dst <- bind (gets (fun s => FlowGraph.Node (flow_graph_ s) (snd it)))
                  (deref "Node(it->second)") ;;
      tb <- gets (fun s => EventDrivenScheduler.task_bindings_ (base s)) ;;
      let r := QuincyDispatcher_NodeBindingToSchedulingDelta d src dst tb in
      modify (fun s => set_base (EventDrivenScheduler.set_task_bindings (snd r) (base s)) s) ;;;
      let delta := fst r in
      if decide (SchedulingDelta.type delta = SchedulingDelta.NOOP)
      then BuildDeltas rest deltas
      else
        n <- bind (gets (fun s => FlowGraph.Node (flow_graph_ s) (fst it)))
                  (deref "Node(it->first)") ;;
        modify (fun s =>
          set_flow_graph
            (FlowGraph.set_node (fst it)
               (FlowGraphNode.set_type SCHEDULED_TASK n) (flow_graph_ s)) s) ;;;
        BuildDeltas rest (deltas ++ [delta])
  end.

(** The second loop: [erase] every delta that was actioned. *)
Fixpoint erase_actioned (deltas : list SchedulingDelta.t) : list SchedulingDelta.t :=
  match deltas with
  | [] => []
  | it :: rest =>
      if SchedulingDelta.actioned it
      then erase_actioned rest
      else it :: erase_actioned rest
  end.

(** From the call of [ApplySchedulingDeltas] to the end of the function. *)
Definition ApplyAndReport (deltas : list SchedulingDelta.t) : M N :=
  r <- ApplySchedulingDeltas deltas ;;
  let num_scheduled := fst r in
  let deltas := erase_actioned (snd r) in
  (if 0 <? N.of_nat (length deltas)
   then LOG WARNING [Str "Not all deltas were processed, ";
                     Num (N.of_nat (length deltas)); Str " remain!"]
   else ret tt) ;;;
  ret num_scheduled.

Definition RunSchedulingIteration : M N :=
  task_mappings <- RunDispatcher ;;
  deltas <- BuildDeltas task_mappings [] ;;
  ApplyAndReport deltas.

(** ** [QuincyScheduler::ScheduleJob] *)

Definition RunnableTasksForJob (job_desc : JobDescriptor.t) : M (gset TaskID_t) :=
  s <- gets id ;;
  let r := EventDrivenScheduler_RunnableTasksForJob job_desc (base s) in
  modify (set_base (snd r)) ;;;
  ret (fst r).

Definition ScheduleJob (job_desc : JobDescriptor.t) : M N :=
  lock_scheduling_lock ;;;
  LOG INFO [Str "START SCHEDULING "; Str (JobDescriptor.uuid job_desc)] ;;;
  runnable_tasks <- RunnableTasksForJob job_desc ;;
  if 0 <? N.of_nat (size runnable_tasks)
  then
    modify (fun s =>
      set_flow_graph (FlowGraph_AddOrUpdateJobNodes (base s) job_desc (flow_graph_ s)) s) ;;;
    newly_scheduled <- RunSchedulingIteration ;;
    LOG INFO [Str "STOP SCHEDULING "; Str (JobDescriptor.uuid job_desc)] ;;;
    unlock_scheduling_lock ;;;
    ret newly_scheduled
  else
    LOG INFO [Str "STOP SCHEDULING "; Str (JobDescriptor.uuid job_desc)] ;;;
    unlock_scheduling_lock ;;;
    ret 0.

End Operations.

(** ** What the specification says of [apply_scheduling_deltas]

    Section 4.6: "For each PLACE delta: look up task and resource
    descriptors; bind (delegated to the outer event-driven scheduler); call
    update_arcs_for_bound_task; mark the task's job as RUNNING if not
    already; mark the delta actioned." The definitions below follow these
    words; they are compared with [ApplySchedulingDeltas] further down. *)

Section ApplySpec.
Context `{Collaborators}.

Definition has {A : Type} (o : option A) : bool :=
  match o with
  | Some _ => true
  | None => false
  end.

Definition is_PLACE (d : SchedulingDelta.t) : bool :=
  bool_decide (SchedulingDelta.type d = SchedulingDelta.PLACE).

Definition count_PLACE (deltas : list SchedulingDelta.t) : nat :=
  length (List.filter is_PLACE deltas).

Definition mark_PLACE_actioned (deltas : list SchedulingDelta.t) : list SchedulingDelta.t :=
  List.map (fun d => if is_PLACE d then SchedulingDelta.set_actioned true d else d) deltas.

Definition delta_resource (d : SchedulingDelta.t) : ResourceID_t :=
  ResourceIDFromString (SchedulingDelta.resource_id d).

(** The task is bound, then the arcs of the bound task are updated. *)
Definition bound (d : SchedulingDelta.t) (s : QuincyScheduler) : QuincyScheduler :=
  let s1 :=
    set_base (EventDrivenScheduler_BindTaskToResource
                (SchedulingDelta.task_id d) (delta_resource d) (base s)) s in
  set_flow_graph
    (FlowGraph_UpdateArcsForBoundTask
       (base s1) (SchedulingDelta.task_id d) (delta_resource d) (flow_graph_ s1)) s1.

Definition job_of_task (task_id : TaskID_t) (s : QuincyScheduler) : option JobID_t :=
  match EventDrivenScheduler.task_map_ (base s) !! task_id with
  | Some td => Some (JobIDFromString (TaskDescriptor.job_id td))
  | None => None
  end.

(** The job is RUNNING afterwards; nothing else in the job map changes. *)
Definition mark_job_running (job_id : JobID_t) (s : QuincyScheduler) : QuincyScheduler :=
  set_base
    (EventDrivenScheduler.set_job_map
       (alter (JobDescriptor.set_state JobDescriptor.RUNNING) job_id
          (EventDrivenScheduler.job_map_ (base s)))
       (base s)) s.

Definition placed (d : SchedulingDelta.t) (s : QuincyScheduler) : QuincyScheduler :=
  match job_of_task (SchedulingDelta.task_id d) (bound d s) with
  | Some job_id => mark_job_running job_id (bound d s)
  | None => bound d s
  end.

(** The descriptors that a placement looks up are there: the task's and the
    resource's before the binding, the task's and its job's after it. *)
Definition placeable (d : SchedulingDelta.t) (s : QuincyScheduler) : bool :=
  has (EventDrivenScheduler.task_map_ (base s) !! SchedulingDelta.task_id d) &&
  has (EventDrivenScheduler.resource_map_ (base s) !! delta_resource d) &&
  match job_of_task (SchedulingDelta.task_id d) (bound d s) with
  | Some job_id => has (EventDrivenScheduler.job_map_ (base (bound d s)) !! job_id)
  | None => false
  end.

Fixpoint all_placeable (deltas : list SchedulingDelta.t) (s : QuincyScheduler) : bool :=
  match deltas with
  | [] => true
  | d :: rest =>
      if is_PLACE d
      then placeable d s && all_placeable rest (placed d s)
      else all_placeable rest s
  end.

Fixpoint after_placements (deltas : list SchedulingDelta.t) (s : QuincyScheduler)
    : QuincyScheduler :=
  match deltas with
  | [] => s
  | d :: rest =>
      if is_PLACE d
      then after_placements rest (placed d s)
      else after_placements rest s
  end.

(** ** Notions to speak of the first loop of an iteration *)

(** The delta that the dispatcher makes of the task mapping [it] in the
    state [s], if the dispatcher and both nodes are there. *)
Definition binding_delta (s : QuincyScheduler) (it : N * N) : option SchedulingDelta.t :=
  match quincy_dispatcher_ s,
        FlowGraph.Node (flow_graph_ s) (fst it),
        FlowGraph.Node (flow_graph_ s) (snd it) with
  | Some d, Some src, Some dst =>
      Some (fst (QuincyDispatcher_NodeBindingToSchedulingDelta d src dst
                   (EventDrivenScheduler.task_bindings_ (base s))))
  | _, _, _ => None
  end.

Definition node_has_type (fg : FlowGraph.t) (id : N) (ty : FlowNodeType) : Prop :=
  exists n, FlowGraph.Node fg id = Some n /\ FlowGraphNode.type_ n = ty.

(** Every node of [fg] is a node of [fg'], and is a scheduled task there
    if it is one in [fg]. *)
Definition nodes_kept (fg fg' : FlowGraph.t) : Prop :=
  forall id n,
    FlowGraph.Node fg id = Some n ->
    exists n', FlowGraph.Node fg' id = Some n' /\
               (FlowGraphNode.type_ n = SCHEDULED_TASK ->
                FlowGraphNode.type_ n' = SCHEDULED_TASK).

Definition unactioned (d : SchedulingDelta.t) : Prop :=
  SchedulingDelta.actioned d = false.

Definition not_all_processed (remaining : nat) : LogRecord :=
  (WARNING, [Str "Not all deltas were processed, ";
             Num (N.of_nat remaining); Str " remain!"]).

End ApplySpec.

(** ** A small cluster to run the model on

    One job "j" with the tasks 1 and 2, one processing unit "r", and a
    dispatcher that replays a fixed solver answer. Identifiers are read off
    the length of their text. *)

Module Demo.

Definition id_of_string (s : string) : N := N.of_nat (String.length s).

Definition bind_task (task_id : TaskID_t) (res_id : ResourceID_t)
    (e : EventDrivenScheduler.t) : EventDrivenScheduler.t :=
  EventDrivenScheduler.set_task_bindings
    (<[task_id := res_id]> (EventDrivenScheduler.task_bindings_ e)) e.

Definition unbound_tasks (jd : JobDescriptor.t) (e : EventDrivenScheduler.t)
    : gset TaskID_t :=
  dom (filter (fun kv : TaskID_t * TaskDescriptor.t =>
                 TaskDescriptor.job_id kv.2 = JobDescriptor.uuid jd /\
                 EventDrivenScheduler.task_bindings_ e !! kv.1 = None)
              (EventDrivenScheduler.task_map_ e)).

Definition node (id : N) (ty : FlowNodeType) (res : ResourceID_t)
    (td : option TaskID_t) (comment : string) : FlowGraphNode.t :=
  {| FlowGraphNode.id_ := id; FlowGraphNode.excess_ := 0;
     FlowGraphNode.type_ := ty; FlowGraphNode.job_id_ := 0;
     FlowGraphNode.resource_id_ := res; FlowGraphNode.rd_ptr_ := None;
     FlowGraphNode.td_ptr_ := td; FlowGraphNode.ec_id_ := 0;
     FlowGraphNode.comment_ := comment;
     FlowGraphNode.outgoing_arc_map_ := ∅;
     FlowGraphNode.incoming_arc_map_ := ∅;
     FlowGraphNode.visited_ := 0 |}.

Definition new_graph (cm : CostModel) : FlowGraph.t :=
  {| FlowGraph.cost_model_ := cm;
     FlowGraph.node_map_ := {[ 1 := node 1 SINK 0 None "SINK" ]} |}.

Definition add_topology (e : EventDrivenScheduler.t)
    (root : ResourceTopologyNodeDescriptor) (fg : FlowGraph.t) : FlowGraph.t :=
  match root with
  | RTND rd _ =>
      FlowGraph.set_node 2
        (node 2 PU (id_of_string (ResourceDescriptor.uuid rd)) None
              (ResourceDescriptor.uuid rd)) fg
  end.

Definition update_topology (e : EventDrivenScheduler.t)
    (root : ResourceTopologyNodeDescriptor) (fg : FlowGraph.t) : FlowGraph.t :=
  FlowGraph.set_node 3 (node 3 MACHINE 0 None "UPDATED") fg.

Definition add_job_nodes (e : EventDrivenScheduler.t) (jd : JobDescriptor.t)
    (fg : FlowGraph.t) : FlowGraph.t :=
  set_fold (fun task_id g =>
              FlowGraph.set_node (100 + task_id)
                (node (100 + task_id) UNSCHEDULED_TASK 0 (Some task_id) EmptyString) g)
           fg (unbound_tasks jd e).

Definition update_arcs (e : EventDrivenScheduler.t) (task_id : TaskID_t)
    (res_id : ResourceID_t) (fg : FlowGraph.t) : FlowGraph.t :=
  match FlowGraph.Node fg (100 + task_id) with
  | Some n => FlowGraph.set_node (100 + task_id)
                (FlowGraphNode.set_type SCHEDULED_TASK n) fg
  | None => fg
  end.

Definition binding_to_delta (answer : list (N * N))
    (src dst : FlowGraphNode.t) (tb : gmap TaskID_t ResourceID_t)
    : SchedulingDelta.t * gmap TaskID_t ResourceID_t :=
  let task_id := default 0 (FlowGraphNode.td_ptr_ src) in
  let ty :=
    match tb !! task_id with
    | None => SchedulingDelta.PLACE
    | Some r => if r =? FlowGraphNode.resource_id_ dst
                then SchedulingDelta.NOOP else SchedulingDelta.MIGRATE
    end in
  ({| SchedulingDelta.type := ty; SchedulingDelta.task_id := task_id;
      SchedulingDelta.resource_id := FlowGraphNode.comment_ dst;
      SchedulingDelta.actioned := false |}, tb).

Definition cluster : Collaborators := {|
  ResourceIDFromString := id_of_string;
  JobIDFromString := id_of_string;
  EventDrivenScheduler_BindTaskToResource := bind_task;
  EventDrivenScheduler_RunnableTasksForJob := fun jd e => (unbound_tasks jd e, e);
  FlowGraph_new := new_graph;
  FlowGraph_AddResourceTopology := add_topology;
  FlowGraph_UpdateResourceTopology := update_topology;
  FlowGraph_AddOrUpdateJobNodes := add_job_nodes;
  FlowGraph_UpdateArcsForBoundTask := update_arcs;
  QuincyDispatcher := list (N * N);
  QuincyDispatcher_new := fun _ _ => [];
  QuincyDispatcher_Run := fun answer _ fg => (answer, answer, fg);
  QuincyDispatcher_NodeBindingToSchedulingDelta := binding_to_delta;
|}.

Definition job_j : JobDescriptor.t :=
  {| JobDescriptor.uuid := "j"; JobDescriptor.state := JobDescriptor.OTHER_STATE 0 |}.

Definition task (uid : TaskID_t) : TaskDescriptor.t :=
  {| TaskDescriptor.uid := uid; TaskDescriptor.job_id := "j";
     TaskDescriptor.state := TaskDescriptor.OTHER_STATE 0 |}.

Definition resource_r : ResourceStatus.t :=
  {| ResourceStatus.descriptor := {| ResourceDescriptor.uuid := "r" |} |}.

Definition topology_r : ResourceTopologyNodeDescriptor :=
  RTND {| ResourceDescriptor.uuid := "r" |} [].

(** Nothing registered yet. *)
Definition empty_base : EventDrivenScheduler.t :=
  {| EventDrivenScheduler.job_map_ := ∅;
     EventDrivenScheduler.resource_map_ := ∅;
     EventDrivenScheduler.task_map_ := ∅;
     EventDrivenScheduler.task_bindings_ := ∅ |}.

(** Job "j" with its two tasks and the resource "r"; task 2 is bound to a
    resource 7 that is not the one the solver will name. *)
Definition full_base : EventDrivenScheduler.t :=
  {| EventDrivenScheduler.job_map_ := {[ 1 := job_j ]};
     EventDrivenScheduler.resource_map_ := {[ 1 := resource_r ]};
     EventDrivenScheduler.task_map_ := {[ 1 := task 1; 2 := task 2 ]};
     EventDrivenScheduler.task_bindings_ := {[ 2 := 7 ]} |}.

Definition full_graph : FlowGraph.t :=
  {| FlowGraph.cost_model_ := TrivialCostModel;
     FlowGraph.node_map_ :=
       {[ 1 := node 1 SINK 0 None "SINK";
          2 := node 2 PU 1 None "r";
          101 := node 101 UNSCHEDULED_TASK 0 (Some 1) EmptyString;
          102 := node 102 UNSCHEDULED_TASK 0 (Some 2) EmptyString ]} |}.

Definition scheduler (e : EventDrivenScheduler.t) (fg : FlowGraph.t)
    (answer : list (N * N)) : @QuincyScheduler cluster :=
  @mkQuincyScheduler cluster e fg (Some answer) false [].

Definition place (task_id : TaskID_t) (res : string) : SchedulingDelta.t :=
  {| SchedulingDelta.type := SchedulingDelta.PLACE;
     SchedulingDelta.task_id := task_id;
     SchedulingDelta.resource_id := res;
     SchedulingDelta.actioned := false |}.

Definition migrate (task_id : TaskID_t) (res : string) : SchedulingDelta.t :=
  {| SchedulingDelta.type := SchedulingDelta.MIGRATE;
     SchedulingDelta.task_id := task_id;
     SchedulingDelta.resource_id := res;
     SchedulingDelta.actioned := false |}.

(** The solver sends both tasks to the processing unit, node 2. *)
Definition answer : list (N * N) := [(101, 2); (102, 2)].

Definition busy : @QuincyScheduler cluster := scheduler full_base full_graph answer.

(** The state of [busy] after the first loop of an iteration. *)
Definition relabelled : @QuincyScheduler cluster :=
  set_flow_graph
    (FlowGraph.set_node 102 (node 102 SCHEDULED_TASK 0 (Some 2) EmptyString)
       (FlowGraph.set_node 101 (node 101 SCHEDULED_TASK 0 (Some 1) EmptyString) full_graph))
    busy.

(** A fresh graph in which a cluster aggregator stands next to the sink. *)
Definition sink_and_aggregator : FlowGraph.t :=
  FlowGraph.set_node 2 (node 2 JOB_AGGREGATOR 0 None "CLUSTER_AGG")
    (new_graph TrivialCostModel).

(** A scheduler that knows no job, task or resource. *)
Definition idle : @QuincyScheduler cluster :=
  scheduler empty_base (new_graph TrivialCostModel) [].

End Demo.

(** ** The other member functions of [quincy_scheduler.cc] *)

(** What these call outside the sources: the handlers of the base class
    that they override, the flow graph's deletions, and the member
    [resource_topology_] of the base class. [HandleTaskCompletion] is given
    pointers to a task descriptor and to a report that are the caller's;
    the handler of the base class may write through both, and is modelled
    as giving the descriptor and the report back as it leaves them. *)
Class CompletionCollaborators : Type := {
  TaskFinalReport : Type;
  EventDrivenScheduler_resource_topology_ :
    EventDrivenScheduler.t -> ResourceTopologyNodeDescriptor;
  EventDrivenScheduler_HandleJobCompletion :
    JobID_t -> EventDrivenScheduler.t -> EventDrivenScheduler.t;
  EventDrivenScheduler_HandleTaskCompletion :
    TaskDescriptor.t -> TaskFinalReport -> EventDrivenScheduler.t ->
    TaskDescriptor.t * TaskFinalReport * EventDrivenScheduler.t;
  EventDrivenScheduler_RegisterResource :
    ResourceID_t -> bool -> EventDrivenScheduler.t -> EventDrivenScheduler.t;
  FlowGraph_DeleteNodesForJob :
    EventDrivenScheduler.t -> JobID_t -> FlowGraph.t -> FlowGraph.t;
  FlowGraph_DeleteTaskNode :
    EventDrivenScheduler.t -> TaskID_t -> FlowGraph.t -> FlowGraph.t;
}.

Section MoreOperations.
Context `{Collaborators} `{CompletionCollaborators}.
Local Open Scope sched_scope.

(** [QuincyScheduler::FindResourceForTask], a stub. *)
Definition FindResourceForTask (td : TaskID_t) : M (option ResourceID_t) :=
  ret None.

(** [QuincyScheduler::HandleJobCompletion]: the handler of the base class
    runs first, outside the lock. *)
Definition HandleJobCompletion (job_id : JobID_t) : M unit :=
  modify (fun s =>
    set_base (EventDrivenScheduler_HandleJobCompletion job_id (base s)) s) ;;;
  lock_scheduling_lock ;;;
  modify (fun s =>
    set_flow_graph (FlowGraph_DeleteNodesForJob (base s) job_id (flow_graph_ s)) s) ;;;
  unlock_scheduling_lock.

(** [QuincyScheduler::HandleTaskCompletion]: [td_ptr->uid()] is read under
    the lock, after the handler of the base class has run. The descriptor
    and the report are handed back as they are at the end. *)
Definition HandleTaskCompletion (td_ptr : TaskDescriptor.t) (report : TaskFinalReport)
    : M (TaskDescriptor.t * TaskFinalReport) :=
  s <- gets id ;;
  let r := EventDrivenScheduler_HandleTaskCompletion td_ptr report (base s) in
  modify (set_base (snd r)) ;;;
  lock_scheduling_lock ;;;
  modify (fun s =>
    set_flow_graph
      (FlowGraph_DeleteTaskNode (base s) (TaskDescriptor.uid (fst (fst r)))
         (flow_graph_ s)) s) ;;;
  unlock_scheduling_lock ;;;
  ret (fst r).

(** [QuincyScheduler::RegisterResource] *)
Definition RegisterResource (res_id : ResourceID_t) (local : bool) : M unit :=
  resource_topology <- gets (fun s => EventDrivenScheduler_resource_topology_ (base s)) ;;
  UpdateResourceTopology resource_topology ;;;
  modify (fun s =>
    set_base (EventDrivenScheduler_RegisterResource res_id local (base s)) s).

End MoreOperations.

(** ** [QuincyScheduler::PrintGraph]

    The argument is a vector of [map<uint64_t, uint64_t>], passed by value;
    a [std::map] is walked in the order of its keys. What goes to [cout] is
    modelled as the list of the lines, each the items streamed before its
    [endl]. The loop starts at index 1. *)

Definition key_le (a b : N * N) : Prop := a.1 <= b.1.

#[global] Instance key_le_dec : RelDecision key_le.
Proof. intros a b. unfold key_le. apply _. Defined.

Definition in_key_order (m : gmap N N) : list (N * N) :=
  merge_sort key_le (map_to_list m).

(** The three numbers of each line, in the order of the lines. *)
Definition PrintGraph_entries (adj_map : list (gmap N N)) : list (nat * N * N) :=
  flat_map
    (fun i : nat =>
       match adj_map !! i with
       | Some row => (fun kv : N * N => (i, kv.1, kv.2)) <$> in_key_order row
       | None => []
       end)
    (seq 1 (length adj_map - 1)).

Definition PrintGraph_line (e : nat * N * N) : list LogItem :=
  [Num (N.of_nat e.1.1); Str " "; Num e.1.2; Str " "; Num e.2].

Definition PrintGraph (adj_map : list (gmap N N)) : list (list LogItem) :=
  PrintGraph_line <$> PrintGraph_entries adj_map.

(** ** Notions to state what the code keeps *)

Section Notions.
Context `{Collaborators}.

(** The deltas that are neither PLACE nor actioned. *)
Definition left_over (d : SchedulingDelta.t) : bool :=
  negb (is_PLACE d) && negb (SchedulingDelta.actioned d).

(** [fg'] has the cost model and the nodes of [fg], but for nodes whose
    type has become SCHEDULED_TASK. *)
Definition relabelled_only (fg fg' : FlowGraph.t) : Prop :=
  FlowGraph.cost_model_ fg' = FlowGraph.cost_model_ fg /\
  forall id,
    FlowGraph.Node fg' id = FlowGraph.Node fg id \/
    exists n, FlowGraph.Node fg id = Some n /\
              FlowGraph.Node fg' id = Some (FlowGraphNode.set_type SCHEDULED_TASK n).

(** The scheduler's own lock, log and dispatcher are as before. *)
Definition same_frame (s s' : QuincyScheduler) : Prop :=
  scheduling_lock_ s' = scheduling_lock_ s /\
  log_ s' = log_ s /\
  quincy_dispatcher_ s' = quincy_dispatcher_ s.

(** What one turn of the outer loop of [PrintGraph] prints. *)
Definition print_row (adj_map : list (gmap N N)) (i : nat) : list (nat * N * N) :=
  match adj_map !! i with
  | Some row => (fun kv : N * N => (i, kv.1, kv.2)) <$> in_key_order row
  | None => []
  end.

(** The number of entries in the rows from index 1 on. *)
Definition entries_from_row_1 (adj_map : list (gmap N N)) : nat :=
  sum_list_with (fun row : gmap N N => size row) (drop 1 adj_map).

(** The lines are in the order of (index, key). *)
Definition entry_lt (a b : nat * N * N) : Prop :=
  (a.1.1 < b.1.1)%nat \/ (a.1.1 = b.1.1 /\ a.1.2 < b.1.2).

End Notions.

(** The small cluster again, with handlers that forget a finished job or
    task and a flow graph that drops their nodes. *)
Module DemoMore.

Definition forget_job (job_id : JobID_t) (e : EventDrivenScheduler.t)
    : EventDrivenScheduler.t :=
  EventDrivenScheduler.set_job_map
    (delete job_id (EventDrivenScheduler.job_map_ e)) e.

Definition forget_binding (td : TaskDescriptor.t) (report : N)
    (e : EventDrivenScheduler.t) : TaskDescriptor.t * N * EventDrivenScheduler.t :=
  (td, report + 1,
   EventDrivenScheduler.set_task_bindings
     (delete (TaskDescriptor.uid td) (EventDrivenScheduler.task_bindings_ e)) e).

Definition delete_task_node (e : EventDrivenScheduler.t) (task_id : TaskID_t)
    (fg : FlowGraph.t) : FlowGraph.t :=
  {| FlowGraph.cost_model_ := FlowGraph.cost_model_ fg;
     FlowGraph.node_map_ := delete (100 + task_id) (FlowGraph.node_map_ fg) |}.

Definition delete_job_nodes (e : EventDrivenScheduler.t) (job_id : JobID_t)
    (fg : FlowGraph.t) : FlowGraph.t :=
  {| FlowGraph.cost_model_ := FlowGraph.cost_model_ fg;
     FlowGraph.node_map_ :=
       filter (fun kv : N * FlowGraphNode.t =>
                 FlowGraphNode.td_ptr_ kv.2 = None)
              (FlowGraph.node_map_ fg) |}.

Definition completion : CompletionCollaborators := {|
  TaskFinalReport := N;
  EventDrivenScheduler_resource_topology_ := fun _ => Demo.topology_r;
  EventDrivenScheduler_HandleJobCompletion := forget_job;
  EventDrivenScheduler_HandleTaskCompletion := forget_binding;
  EventDrivenScheduler_RegisterResource := fun _ _ e => e;
  FlowGraph_DeleteNodesForJob := delete_job_nodes;
  FlowGraph_DeleteTaskNode := delete_task_node;
|}.

(** The scheduler [Demo.busy], found with the lock held. *)
Definition held : @QuincyScheduler Demo.cluster :=
  set_scheduling_lock true Demo.busy.

(** An adjacency vector: row 0 is never printed. *)
Definition adjacency : list (gmap N N) :=
  [ {[ 9 := 9 ]}; {[ 3 := 1; 2 := 5 ]}; ∅; {[ 1 := 4 ]} ].

End DemoMore.

(** * Properties *)

(** ** Node classification *)

Section NodePredicates.
Import FlowGraphNode.






End NodePredicates.



(** ** The CHANGE_ARC record *)

(** C8. A record built from an arc and an old cost carries the arc's
    endpoints, capacity bounds, cost and type, and the old cost given. *)
Theorem DIMACSChangeArc_fields (arc : FlowGraphArc.t) (old_cost : Z) :
  let c := DIMACSChangeArc.new arc old_cost in
  DIMACSChangeArc.src_ c = FlowGraphArc.src_ arc /\
  DIMACSChangeArc.dst_ c = FlowGraphArc.dst_ arc /\
  DIMACSChangeArc.cap_lower_bound_ c = FlowGraphArc.cap_lower_bound_ arc /\
  DIMACSChangeArc.cap_upper_bound_ c = FlowGraphArc.cap_upper_bound_ arc /\
  DIMACSChangeArc.cost_ c = FlowGraphArc.cost_ arc /\
  DIMACSChangeArc.type_ c = FlowGraphArc.type_ arc /\
  DIMACSChangeArc.old_cost_ c = old_cost.
Proof. repeat split. Qed.

(** ** Task identifiers *)

Lemma TaskIdentifier_eq_true (a b : Sim.TaskIdentifier) :
  Sim.TaskIdentifier_eq a b = true <->
  Sim.job_id a = Sim.job_id b /\ Sim.task_index a = Sim.task_index b.
Proof.
  unfold Sim.TaskIdentifier_eq.
  rewrite andb_true_iff, !N.eqb_eq. reflexivity.
Qed.

(** C10. [==] on task identifiers is equality of both fields, and the
    hasher respects it, over any hash of the 64-bit fields. *)
Theorem TaskIdentifier_eq_hash (hash_uint64 : N -> N) (a b : Sim.TaskIdentifier) :
  (Sim.TaskIdentifier_eq a b = true <->
   Sim.job_id a = Sim.job_id b /\ Sim.task_index a = Sim.task_index b) /\
  (Sim.TaskIdentifier_eq a b = true ->
   Sim.TaskIdentifierHasher hash_uint64 a = Sim.TaskIdentifierHasher hash_uint64 b).
Proof.
  split; [apply TaskIdentifier_eq_true|].
  intros [Hj Ht]%TaskIdentifier_eq_true.
  unfold Sim.TaskIdentifierHasher. by rewrite Hj, Ht.
Qed.

Lemma TaskIdentifier_eq_hash_witness :
  let a := Sim.mkTaskIdentifier 6251414911 3 in
  Sim.TaskIdentifier_eq a a = true /\
  Sim.TaskIdentifierHasher (fun x => x * 2654435761) a =
    Sim.TaskIdentifierHasher (fun x => x * 2654435761) a.
Proof.
  intros a. split; [reflexivity|].
  apply (TaskIdentifier_eq_hash (fun x => x * 2654435761) a a). reflexivity.
Defined.

(** ** Topology updates and construction *)

Section Construction.
Context `{Collaborators}.

Lemma two_nodes_not_one (fg : FlowGraph.t) (a b : N) :
  a <> b ->
  is_Some (FlowGraph.Node fg a) ->
  is_Some (FlowGraph.Node fg b) ->
  FlowGraph.NumNodes fg <> 1.
Proof.
  unfold FlowGraph.Node, FlowGraph.NumNodes. intros Hab Ha Hb Hsize.
  assert (Hdel : size (delete a (FlowGraph.node_map_ fg)) <> 0%nat).
  { apply (map_size_ne_0_lookup_2 _ b). by rewrite lookup_delete_ne. }
  rewrite map_size_delete_Some in Hdel by done. lia.
Qed.

(** C5. The topology update is the initial addition when the flow graph
    holds exactly one node, and the incremental update in every other case;
    so a graph that holds two nodes, such as a sink and a cluster aggregator,
    is always updated incrementally. *)
Theorem UpdateResourceTopology_initial_iff_one_node
    (root : ResourceTopologyNodeDescriptor) (s : QuincyScheduler) :
  (FlowGraph.NumNodes (flow_graph_ s) = 1 ->
   UpdateResourceTopology root s =
     inr (tt, set_flow_graph
                (FlowGraph_AddResourceTopology (base s) root (flow_graph_ s)) s)) /\
  (FlowGraph.NumNodes (flow_graph_ s) <> 1 ->
   UpdateResourceTopology root s =
     inr (tt, set_flow_graph
                (FlowGraph_UpdateResourceTopology (base s) root (flow_graph_ s)) s)) /\
  (forall sink cluster_agg : N,
     sink <> cluster_agg ->
     is_Some (FlowGraph.Node (flow_graph_ s) sink) ->
     is_Some (FlowGraph.Node (flow_graph_ s) cluster_agg) ->
     UpdateResourceTopology root s =
       inr (tt, set_flow_graph
                  (FlowGraph_UpdateResourceTopology (base s) root (flow_graph_ s)) s)).
Proof.
  assert (Hne : FlowGraph.NumNodes (flow_graph_ s) <> 1 ->
    UpdateResourceTopology root s =
      inr (tt, set_flow_graph
                 (FlowGraph_UpdateResourceTopology (base s) root (flow_graph_ s)) s)).
  { intros Hn. unfold UpdateResourceTopology, bind, gets, modify.
    apply N.eqb_neq in Hn. by rewrite Hn. }
  split; [|split].
  - intros Hn. unfold UpdateResourceTopology, bind, gets, modify.
    by rewrite Hn.
  - exact Hne.
  - intros sink agg Hd Hs Ha. apply Hne. by apply (two_nodes_not_one _ sink agg).
Qed.

Lemma QuincyScheduler_new_selected v cm eds root params :
  select_cost_model v = inr cm ->
  QuincyScheduler_new v eds root params =
    inr {| base := eds;
           flow_graph_ := initial_flow_graph cm eds root;
           quincy_dispatcher_ :=
             Some (QuincyDispatcher_new (initial_flow_graph cm eds root) false);
           scheduling_lock_ := false;
           log_ := [(INFO, [Str "QuincyScheduler initiated; parameters: ";
                            Str params])] |}.
Proof.
  intros Hsel. unfold QuincyScheduler_new. rewrite Hsel.
  unfold bind, LOG, modify, UpdateResourceTopology, gets, initial_flow_graph.
  cbn. by destruct (_ =? 1).
Qed.

(** The selector's values 0 to 3 choose the trivial, random, SJF and Quincy
    cost models, and construction returns. *)
Lemma QuincyScheduler_new_0_to_3 eds root params v cm :
  (v, cm) ∈ [(0, TrivialCostModel); (1, RandomCostModel);
             (2, SJFCostModel); (3, QuincyCostModel)]%Z ->
  exists this, QuincyScheduler_new v eds root params = inr this /\
               flow_graph_ this = initial_flow_graph cm eds root /\
               quincy_dispatcher_ this =
                 Some (QuincyDispatcher_new (initial_flow_graph cm eds root) false).
Proof.
  intros Hin.
  assert (Hsel : select_cost_model v = inr cm).
  { repeat (apply elem_of_cons in Hin as [[= -> ->]|Hin]; [reflexivity|]).
    by apply elem_of_nil in Hin. }
  rewrite (QuincyScheduler_new_selected _ _ _ _ _ Hsel).
  eexists. split; [reflexivity|]. split; reflexivity.
Qed.

(** Every other value of the selector ends the process. *)
Lemma QuincyScheduler_new_unknown v eds root params :
  (v < 0 \/ 3 < v)%Z ->
  QuincyScheduler_new v eds root params =
    inl (LOG_FATAL "Unknown flow scheduling cost model specificed " v).
Proof.
  intros Hv. unfold QuincyScheduler_new, select_cost_model.
  unfold COST_MODEL_TRIVIAL, COST_MODEL_RANDOM, COST_MODEL_SJF, COST_MODEL_QUINCY.
  repeat (destruct (_ =? _)%Z eqn:E; [apply Z.eqb_eq in E; lia | clear E]).
  reflexivity.
Qed.

(** C1, where the code departs from it. The selector's values 4 (WHARE) and
    5 (COCO), which the flag's help text offers, have no case in the
    constructor's [switch]: construction with either ends in [LOG(FATAL)]. *)
Theorem QuincyScheduler_new_WHARE_COCO_fatal
    (eds : EventDrivenScheduler.t) (root : ResourceTopologyNodeDescriptor)
    (params : string) :
  QuincyScheduler_new COST_MODEL_WHARE eds root params =
    inl (LOG_FATAL "Unknown flow scheduling cost model specificed " 4) /\
  QuincyScheduler_new COST_MODEL_COCO eds root params =
    inl (LOG_FATAL "Unknown flow scheduling cost model specificed " 5).
Proof. split; reflexivity. Qed.

End Construction.

(** A graph of the sink alone gets the initial addition; the small cluster's
    graph of four nodes, and a graph of sink and cluster aggregator, get the
    incremental update. *)
Lemma UpdateResourceTopology_initial_iff_one_node_witness :
  let fresh := Demo.idle in
  let grown := Demo.busy in
  let two := Demo.scheduler Demo.empty_base Demo.sink_and_aggregator [] in
  UpdateResourceTopology Demo.topology_r fresh =
    inr (tt, set_flow_graph
               (Demo.add_topology Demo.empty_base Demo.topology_r (flow_graph_ fresh))
               fresh) /\
  UpdateResourceTopology Demo.topology_r grown =
    inr (tt, set_flow_graph
               (Demo.update_topology Demo.full_base Demo.topology_r (flow_graph_ grown))
               grown) /\
  UpdateResourceTopology Demo.topology_r two =
    inr (tt, set_flow_graph
               (Demo.update_topology Demo.empty_base Demo.topology_r (flow_graph_ two))
               two).
Proof.
  intros fresh grown two.
  pose proof (@UpdateResourceTopology_initial_iff_one_node
                Demo.cluster Demo.topology_r fresh) as [Hone _].
  pose proof (@UpdateResourceTopology_initial_iff_one_node
                Demo.cluster Demo.topology_r grown) as [_ [Hmore _]].
  pose proof (@UpdateResourceTopology_initial_iff_one_node
                Demo.cluster Demo.topology_r two) as [_ [_ Htwo]].
  split; [apply Hone; reflexivity|].
  split; [apply Hmore; vm_compute; discriminate|].
  apply (Htwo 1 2); [discriminate | vm_compute; eauto | vm_compute; eauto].
Defined.

(** ** Applying scheduling deltas *)

Section Apply.
Context `{Collaborators}.

Lemma set_job_map_same (e : EventDrivenScheduler.t) :
  EventDrivenScheduler.set_job_map (EventDrivenScheduler.job_map_ e) e = e.
Proof. by destruct e. Qed.

Lemma set_base_same (s : QuincyScheduler) : set_base (base s) s = s.
Proof. by destruct s. Qed.

Lemma set_state_same (jd : JobDescriptor.t) :
  JobDescriptor.state jd = JobDescriptor.RUNNING ->
  JobDescriptor.set_state JobDescriptor.RUNNING jd = jd.
Proof. destruct jd; simpl; by intros ->. Qed.

Lemma alter_present (f : JobDescriptor.t -> JobDescriptor.t)
    (m : gmap JobID_t JobDescriptor.t) k jd :
  m !! k = Some jd -> alter f k m = <[k := f jd]> m.
Proof.
  intros Hk. apply map_eq. intros i. rewrite lookup_alter, lookup_insert.
  case_decide as Hi; [subst i; by rewrite Hk | done].
Qed.

(** The code's placement of one task against the specification's. *)
Lemma PlaceTask_placed (d : SchedulingDelta.t) (s : QuincyScheduler) :
  placeable d s = true ->
  PlaceTask (SchedulingDelta.task_id d) (delta_resource d) s = inr (tt, placed d s).
Proof.
  unfold placeable, placed, job_of_task. intros Hp.
  apply andb_true_iff in Hp as [Hp Hjob]. apply andb_true_iff in Hp as [Htd Hrs].
  unfold PlaceTask, bind, gets, modify, CHECK_NOTNULL, deref, ret.
  destruct (EventDrivenScheduler.task_map_ (base s) !! _) as [td|]; [|done].
  destruct (EventDrivenScheduler.resource_map_ (base s) !! _) as [rs|]; [|done].
  fold (bound d s). cbn beta iota.
  destruct (EventDrivenScheduler.task_map_ (base (bound d s)) !! _) as [td'|]; [|done].
  destruct (EventDrivenScheduler.job_map_ (base (bound d s)) !! _) as [jd|] eqn:Hjd;
    [|done].
  unfold mark_job_running. rewrite (alter_present _ _ _ _ Hjd).
  destruct (decide _) as [Hst|Hst]; [reflexivity|].
  apply dec_stable in Hst.
  rewrite (set_state_same _ Hst), (insert_id _ _ _ Hjd).
  by rewrite set_job_map_same, set_base_same.
Qed.

(** After a placement the job of the task is RUNNING. *)
Lemma placed_job_running (d : SchedulingDelta.t) (s : QuincyScheduler) :
  placeable d s = true ->
  exists job_id jd,
    job_of_task (SchedulingDelta.task_id d) (bound d s) = Some job_id /\
    EventDrivenScheduler.job_map_ (base (placed d s)) !! job_id = Some jd /\
    JobDescriptor.state jd = JobDescriptor.RUNNING.
Proof.
  unfold placeable, placed. intros Hp.
  apply andb_true_iff in Hp as [_ Hjob].
  destruct (job_of_task _ _) as [job_id|]; [|done].
  destruct (EventDrivenScheduler.job_map_ (base (bound d s)) !! job_id)
    as [jd|] eqn:Hjd; [|done].
  exists job_id, (JobDescriptor.set_state JobDescriptor.RUNNING jd).
  split; [done|]. split; [|done].
  unfold mark_job_running. cbn [base set_base EventDrivenScheduler.job_map_
    EventDrivenScheduler.set_job_map].
  by rewrite lookup_alter_eq, Hjd.
Qed.

(** A placement whose task or resource is not in the maps ends the
    process at [CHECK_NOTNULL]. *)
Lemma PlaceTask_missing (task_id : TaskID_t) (res_id : ResourceID_t) (s : QuincyScheduler) :
  EventDrivenScheduler.task_map_ (base s) !! task_id = None \/
  EventDrivenScheduler.resource_map_ (base s) !! res_id = None ->
  exists what, PlaceTask task_id res_id s = inl (CHECK_NOTNULL_failed what).
Proof.
  intros Hmiss. unfold PlaceTask, bind, gets, CHECK_NOTNULL, abort, ret.
  destruct (EventDrivenScheduler.task_map_ (base s) !! task_id) as [td|]; [|by eexists].
  destruct (EventDrivenScheduler.resource_map_ (base s) !! res_id) as [rs|]; [|by eexists].
  by destruct Hmiss.
Qed.

Lemma count_PLACE_le_length (deltas : list SchedulingDelta.t) :
  (count_PLACE deltas <= length deltas)%nat.
Proof. apply List.filter_length_le. Qed.

Lemma ApplySchedulingDeltas_from_cons_PLACE d rest n s :
  SchedulingDelta.type d = SchedulingDelta.PLACE ->
  ApplySchedulingDeltas_from (d :: rest) n s =
    match PlaceTask (SchedulingDelta.task_id d) (delta_resource d) s with
    | inl e => inl e
    | inr (_, s') =>
        match ApplySchedulingDeltas_from rest ((n + 1) mod UINT64_MODULUS) s' with
        | inl e => inl e
        | inr (r, s'') => inr ((r.1, SchedulingDelta.set_actioned true d :: r.2), s'')
        end
    end.
Proof.
  intros Hty. cbn [ApplySchedulingDeltas_from]. rewrite decide_True by done.
  unfold bind, ret, delta_resource.
  destruct (PlaceTask _ _ s) as [e|[[] s']]; [done|].
  by destruct (ApplySchedulingDeltas_from rest _ s') as [e|[r s'']].
Qed.

Lemma ApplySchedulingDeltas_from_cons_other d rest n s :
  SchedulingDelta.type d <> SchedulingDelta.PLACE ->
  ApplySchedulingDeltas_from (d :: rest) n s =
    match ApplySchedulingDeltas_from rest n s with
    | inl e => inl e
    | inr (r, s') => inr ((r.1, d :: r.2), s')
    end.
Proof.
  intros Hty. cbn [ApplySchedulingDeltas_from]. rewrite decide_False by done.
  unfold bind, ret.
  by destruct (ApplySchedulingDeltas_from rest n s) as [e|[r s']].
Qed.

Lemma is_PLACE_true d : is_PLACE d = true <-> SchedulingDelta.type d = SchedulingDelta.PLACE.
Proof. unfold is_PLACE. apply bool_decide_eq_true. Qed.

Lemma is_PLACE_false d : is_PLACE d = false <-> SchedulingDelta.type d <> SchedulingDelta.PLACE.
Proof. unfold is_PLACE. apply bool_decide_eq_false. Qed.

Lemma ApplySchedulingDeltas_from_placeable deltas : forall n s,
  n + N.of_nat (count_PLACE deltas) < UINT64_MODULUS ->
  all_placeable deltas s = true ->
  ApplySchedulingDeltas_from deltas n s =
    inr ((n + N.of_nat (count_PLACE deltas), mark_PLACE_actioned deltas),
         after_placements deltas s).
Proof.
  induction deltas as [|d rest IH]; intros n s Hbound Hok.
  - cbn. unfold ret. by rewrite N.add_0_r.
  - unfold count_PLACE in *. cbn [all_placeable after_placements
      mark_PLACE_actioned List.map List.filter] in *.
    destruct (is_PLACE d) eqn:Hd.
    + apply is_PLACE_true in Hd. apply andb_true_iff in Hok as [Hp Hok].
      cbn [length] in *.
      rewrite (ApplySchedulingDeltas_from_cons_PLACE _ _ _ _ Hd).
      rewrite (PlaceTask_placed _ _ Hp).
      rewrite N.mod_small by lia.
      rewrite IH by (done || lia). cbn. do 3 f_equal. lia.
    + apply is_PLACE_false in Hd.
      rewrite (ApplySchedulingDeltas_from_cons_other _ _ _ _ Hd).
      by rewrite IH.
Qed.

Lemma all_placeable_app pre post : forall s,
  all_placeable (pre ++ post) s =
    all_placeable pre s && all_placeable post (after_placements pre s).
Proof.
  induction pre as [|d pre IH]; intros s; [reflexivity|].
  cbn [app all_placeable after_placements].
  destruct (is_PLACE d); [|apply IH].
  by rewrite IH, andb_assoc.
Qed.

(** C2, as the code has it. When every PLACE delta finds, at its turn, the
    descriptors it looks up, the call returns the number of PLACE deltas,
    has placed their tasks in order (bound, arcs updated, job RUNNING) and
    has marked exactly the PLACE deltas actioned; right after the placement
    of a task its job is RUNNING. *)
Theorem ApplySchedulingDeltas_counts_PLACE
    (deltas : list SchedulingDelta.t) (s : QuincyScheduler) :
  N.of_nat (length deltas) < UINT64_MODULUS ->
  all_placeable deltas s = true ->
  ApplySchedulingDeltas deltas s =
    inr ((N.of_nat (count_PLACE deltas), mark_PLACE_actioned deltas),
         after_placements deltas s) /\
  (forall pre d post,
     deltas = pre ++ d :: post ->
     SchedulingDelta.type d = SchedulingDelta.PLACE ->
     after_placements (pre ++ [d]) s = placed d (after_placements pre s) /\
     exists job_id jd,
       job_of_task (SchedulingDelta.task_id d) (bound d (after_placements pre s)) =
         Some job_id /\
       EventDrivenScheduler.job_map_ (base (after_placements (pre ++ [d]) s)) !! job_id =
         Some jd /\
       JobDescriptor.state jd = JobDescriptor.RUNNING).
Proof.
  intros Hlen Hok. split.
  - unfold ApplySchedulingDeltas.
    pose proof (count_PLACE_le_length deltas).
    rewrite ApplySchedulingDeltas_from_placeable by (done || lia).
    by rewrite N.add_0_l.
  - intros pre d post -> Hd. apply is_PLACE_true in Hd.
    rewrite all_placeable_app in Hok. apply andb_true_iff in Hok as [_ Hok].
    cbn [all_placeable] in Hok. rewrite Hd in Hok.
    apply andb_true_iff in Hok as [Hp _].
    assert (Hturn : after_placements (pre ++ [d]) s = placed d (after_placements pre s)).
    { clear Hp Hlen. generalize s.
      induction pre as [|d' pre IH]; intros s'; cbn [app after_placements].
      + by rewrite Hd.
      + destruct (is_PLACE d'); apply IH. }
    split; [exact Hturn|]. rewrite Hturn. by apply placed_job_running.
Qed.

Lemma ApplySchedulingDeltas_from_app pre post : forall n s,
  ApplySchedulingDeltas_from (pre ++ post) n s =
    match ApplySchedulingDeltas_from pre n s with
    | inl e => inl e
    | inr (r, s') =>
        match ApplySchedulingDeltas_from post r.1 s' with
        | inl e => inl e
        | inr (r', s'') => inr ((r'.1, r.2 ++ r'.2), s'')
        end
    end.
Proof.
  induction pre as [|d pre IH]; intros n s.
  - cbn. unfold ret. cbn.
    by destruct (ApplySchedulingDeltas_from post n s) as [e|[[n' ds] s']].
  - rewrite <- app_comm_cons.
    destruct (decide (SchedulingDelta.type d = SchedulingDelta.PLACE)) as [Hd|Hd].
    + rewrite !(ApplySchedulingDeltas_from_cons_PLACE _ _ _ _ Hd).
      destruct (PlaceTask _ _ s) as [e|[[] s1]]; [done|].
      rewrite IH.
      destruct (ApplySchedulingDeltas_from pre _ s1) as [e|[r s2]]; [done|]. cbn.
      by destruct (ApplySchedulingDeltas_from post _ s2) as [e|[r' s3]].
    + rewrite !(ApplySchedulingDeltas_from_cons_other _ _ _ _ Hd).
      rewrite IH.
      destruct (ApplySchedulingDeltas_from pre _ s) as [e|[r s2]]; [done|]. cbn.
      by destruct (ApplySchedulingDeltas_from post _ s2) as [e|[r' s3]].
Qed.

(** C6. Once the deltas before it have been applied, a PLACE delta whose
    task or whose resource is not in the scheduler's maps ends the whole
    call at a failed [CHECK_NOTNULL]: nothing is returned, whatever
    follows. *)
Theorem ApplySchedulingDeltas_missing_descriptor_fatal
    (pre post : list SchedulingDelta.t) (d : SchedulingDelta.t)
    (s s1 : QuincyScheduler) (r : N * list SchedulingDelta.t) :
  ApplySchedulingDeltas pre s = inr (r, s1) ->
  SchedulingDelta.type d = SchedulingDelta.PLACE ->
  EventDrivenScheduler.task_map_ (base s1) !! SchedulingDelta.task_id d = None \/
  EventDrivenScheduler.resource_map_ (base s1) !! delta_resource d = None ->
  exists what,
    ApplySchedulingDeltas (pre ++ d :: post) s = inl (CHECK_NOTNULL_failed what) /\
    is_fatal (CHECK_NOTNULL_failed what) = true.
Proof.
  unfold ApplySchedulingDeltas. intros Hpre Hd Hmiss.
  destruct (PlaceTask_missing _ _ _ Hmiss) as [what Hwhat].
  exists what. split; [|reflexivity].
  rewrite ApplySchedulingDeltas_from_app, Hpre.
  by rewrite (ApplySchedulingDeltas_from_cons_PLACE _ _ _ _ Hd), Hwhat.
Qed.

End Apply.

(** Task 1 is placed on "r"; the delta for task 2 asks for a migration and
    is passed over. *)
Lemma ApplySchedulingDeltas_counts_PLACE_witness :
  let s := Demo.scheduler Demo.full_base Demo.full_graph [] in
  let deltas := [Demo.place 1 "r"; Demo.migrate 2 "r"] in
  ApplySchedulingDeltas deltas s =
    inr ((1, [SchedulingDelta.set_actioned true (Demo.place 1 "r");
              Demo.migrate 2 "r"]),
         after_placements deltas s) /\
  EventDrivenScheduler.job_map_ (base (after_placements deltas s)) !! 1 =
    Some (JobDescriptor.set_state JobDescriptor.RUNNING Demo.job_j).
Proof.
  intros s deltas.
  destruct (@ApplySchedulingDeltas_counts_PLACE Demo.cluster deltas s) as [Hret _].
  - vm_compute. reflexivity.
  - vm_compute. reflexivity.
  - split; [exact Hret|]. vm_compute. reflexivity.
Defined.

(** C2 as the specification words it fails: on a scheduler that knows no
    task, a vector of one PLACE delta makes the call abort instead of
    returning 1. *)
Lemma ApplySchedulingDeltas_may_abort :
  let s := Demo.scheduler Demo.empty_base Demo.full_graph [] in
  count_PLACE [Demo.place 1 "r"] = 1%nat /\
  ApplySchedulingDeltas [Demo.place 1 "r"] s = inl (CHECK_NOTNULL_failed "td") /\
  ~ (exists deltas' s',
       ApplySchedulingDeltas [Demo.place 1 "r"] s = inr ((1, deltas'), s')).
Proof.
  intros s.
  assert (Habort : ApplySchedulingDeltas [Demo.place 1 "r"] s =
                     inl (CHECK_NOTNULL_failed "td")) by reflexivity.
  split; [reflexivity|]. split; [exact Habort|].
  intros (deltas' & s' & Hret). rewrite Habort in Hret. discriminate.
Qed.

(** Task 1 is placed; task 9 is unknown; the delta for task 2 is never
    reached. *)
Lemma ApplySchedulingDeltas_missing_descriptor_fatal_witness :
  let s := Demo.scheduler Demo.full_base Demo.full_graph [] in
  exists what,
    ApplySchedulingDeltas
      ([Demo.place 1 "r"] ++ Demo.place 9 "r" :: [Demo.place 2 "r"]) s =
      inl (CHECK_NOTNULL_failed what) /\
    is_fatal (CHECK_NOTNULL_failed what) = true.
Proof.
  intros s.
  apply (@ApplySchedulingDeltas_missing_descriptor_fatal Demo.cluster
           [Demo.place 1 "r"] [Demo.place 2 "r"] (Demo.place 9 "r") s
           (after_placements [Demo.place 1 "r"] s)
           (1, [SchedulingDelta.set_actioned true (Demo.place 1 "r")])).
  - reflexivity.
  - reflexivity.
  - left. reflexivity.
Defined.

(** ** One scheduling iteration *)

Section Iteration.
Context `{Collaborators}.

Lemma erase_actioned_unactioned (deltas : list SchedulingDelta.t) :
  Forall unactioned (erase_actioned deltas) /\
  (forall d, d ∈ erase_actioned deltas <-> d ∈ deltas /\ unactioned d).
Proof.
  unfold unactioned. induction deltas as [|it rest [IHall IHin]]; cbn.
  - split; [constructor|]. intros d. rewrite elem_of_nil. tauto.
  - destruct (SchedulingDelta.actioned it) eqn:Hit.
    + split; [done|]. intros d. rewrite IHin, elem_of_cons.
      split; [tauto|]. intros [[->|Hd] Hun]; [congruence|tauto].
    + split; [by constructor|]. intros d. rewrite !elem_of_cons, IHin.
      split; [intros [->|[Hd Hun]]; tauto|tauto].
Qed.

Lemma erase_actioned_nil_iff (deltas : list SchedulingDelta.t) :
  erase_actioned deltas = [] <-> Forall (fun d => SchedulingDelta.actioned d = true) deltas.
Proof.
  induction deltas as [|it rest IH]; cbn.
  - split; [constructor|done].
  - destruct (SchedulingDelta.actioned it) eqn:Hit.
    + rewrite IH. split; [by constructor|]. by inversion 1.
    + split; [done|]. inversion 1; congruence.
Qed.

Lemma ApplyAndReport_returns deltas s1 n deltas' s2 :
  ApplySchedulingDeltas deltas s1 = inr ((n, deltas'), s2) ->
  ApplyAndReport deltas s1 =
    inr (n, match erase_actioned deltas' with
            | [] => s2
            | _ :: _ => add_log (not_all_processed (length (erase_actioned deltas'))) s2
            end).
Proof.
  intros Happly. unfold ApplyAndReport, bind. rewrite Happly. cbn [fst snd].
  destruct (erase_actioned deltas') as [|d rest]; [reflexivity|].
  replace (0 <? N.of_nat (length (d :: rest))) with true
    by (symmetry; apply N.ltb_lt; cbn [length]; lia).
  reflexivity.
Qed.

(** C7. When the iteration has collected its deltas and
    [ApplySchedulingDeltas] has returned the count [n], the iteration
    returns [n]. If a delta is left un-actioned, the only trace of it is one
    warning that counts the deltas left; if none is, nothing is logged. The
    deltas themselves are not kept in either case. *)
Theorem RunSchedulingIteration_unactioned_warned
    (s s0 s1 s2 : QuincyScheduler) (task_mappings : list (N * N))
    (deltas deltas' : list SchedulingDelta.t) (n : N) :
  RunDispatcher s = inr (task_mappings, s0) ->
  BuildDeltas task_mappings [] s0 = inr (deltas, s1) ->
  ApplySchedulingDeltas deltas s1 = inr ((n, deltas'), s2) ->
  (Exists unactioned deltas' ->
   RunSchedulingIteration s =
     inr (n, add_log (not_all_processed (length (erase_actioned deltas'))) s2) /\
   (0 < length (erase_actioned deltas'))%nat) /\
  (Forall (fun d => SchedulingDelta.actioned d = true) deltas' ->
   RunSchedulingIteration s = inr (n, s2)).
Proof.
  intros Hrun Hbuild Happly.
  assert (Hit : RunSchedulingIteration s = ApplyAndReport deltas s1).
  { unfold RunSchedulingIteration, bind. by rewrite Hrun, Hbuild. }
  rewrite Hit, (ApplyAndReport_returns _ _ _ _ _ Happly).
  split.
  - intros Hex. apply Exists_exists in Hex as (d & Hd & Hun).
    assert (Hin : d ∈ erase_actioned deltas')
      by (by apply erase_actioned_unactioned).
    destruct (erase_actioned deltas') as [|d' rest]; [by apply elem_of_nil in Hin|].
    split; [reflexivity | cbn; lia].
  - intros Hall. apply erase_actioned_nil_iff in Hall. by rewrite Hall.
Qed.

(** *** The first loop *)

Lemma BuildDeltas_cons it rest acc s d src dst :
  quincy_dispatcher_ s = Some d ->
  FlowGraph.Node (flow_graph_ s) it.1 = Some src ->
  FlowGraph.Node (flow_graph_ s) it.2 = Some dst ->
  let r := QuincyDispatcher_NodeBindingToSchedulingDelta d src dst
             (EventDrivenScheduler.task_bindings_ (base s)) in
  let s' := set_base (EventDrivenScheduler.set_task_bindings r.2 (base s)) s in
  BuildDeltas (it :: rest) acc s =
    if decide (SchedulingDelta.type r.1 = SchedulingDelta.NOOP)
    then BuildDeltas rest acc s'
    else BuildDeltas rest (acc ++ [r.1])
           (set_flow_graph
              (FlowGraph.set_node it.1 (FlowGraphNode.set_type SCHEDULED_TASK src)
                 (flow_graph_ s')) s').
Proof.
  intros Hd Hsrc Hdst r s'. cbn [BuildDeltas].
  unfold bind, gets, deref, modify, ret. rewrite Hd, Hsrc, Hdst. cbn beta iota.
  fold r. destruct (decide _); [reflexivity|].
  cbn [flow_graph_ set_base]. by rewrite Hsrc.
Qed.

Lemma nodes_kept_refl fg : nodes_kept fg fg.
Proof. intros id n Hn. eauto. Qed.

Lemma nodes_kept_trans fg1 fg2 fg3 :
  nodes_kept fg1 fg2 -> nodes_kept fg2 fg3 -> nodes_kept fg1 fg3.
Proof.
  intros H12 H23 id n Hn.
  destruct (H12 id n Hn) as (n2 & Hn2 & Hty2).
  destruct (H23 id n2 Hn2) as (n3 & Hn3 & Hty3). eauto.
Qed.

Lemma nodes_kept_relabel fg id src :
  FlowGraph.Node fg id = Some src ->
  nodes_kept fg (FlowGraph.set_node id (FlowGraphNode.set_type SCHEDULED_TASK src) fg).
Proof.
  intros Hsrc id' n Hn. unfold FlowGraph.Node, FlowGraph.set_node in *. cbn.
  destruct (decide (id = id')) as [->|Hne].
  - rewrite lookup_insert_eq. eauto.
  - rewrite lookup_insert_ne by done. eauto.
Qed.

(** The loop runs to its end when the dispatcher and the nodes it names
    are there; it hands on the deltas that are not NOOP, keeps the
    dispatcher and the nodes, and never takes a SCHEDULED_TASK label back. *)
Lemma BuildDeltas_runs task_mappings : forall acc s,
  is_Some (quincy_dispatcher_ s) ->
  (forall it, it ∈ task_mappings ->
     is_Some (FlowGraph.Node (flow_graph_ s) it.1) /\
     is_Some (FlowGraph.Node (flow_graph_ s) it.2)) ->
  exists deltas s1,
    BuildDeltas task_mappings acc s = inr (acc ++ deltas, s1) /\
    Forall (fun d => SchedulingDelta.type d <> SchedulingDelta.NOOP) deltas /\
    quincy_dispatcher_ s1 = quincy_dispatcher_ s /\
    nodes_kept (flow_graph_ s) (flow_graph_ s1).
Proof.
  induction task_mappings as [|it rest IH]; intros acc s Hdisp Hnodes.
  - exists [], s. cbn. unfold ret. rewrite app_nil_r.
    split; [done|]. split; [constructor|]. split; [done|]. apply nodes_kept_refl.
  - destruct Hdisp as [d Hd].
    destruct (Hnodes it) as [[src Hsrc] [dst Hdst]]; [left|].
    rewrite (BuildDeltas_cons _ _ _ _ _ _ _ Hd Hsrc Hdst).
    set (r := QuincyDispatcher_NodeBindingToSchedulingDelta d src dst _).
    set (s' := set_base _ s).
    destruct (decide _) as [Hnoop|Hnoop].
    + destruct (IH acc s') as (deltas & s1 & Hrun & Hall & Hdisp1 & Hkept).
      { exists d. exact Hd. }
      { intros it' Hin. apply Hnodes. by right. }
      exists deltas, s1. by rewrite Hrun.
    + set (s'' := set_flow_graph _ s').
      destruct (IH (acc ++ [r.1]) s'') as (deltas & s1 & Hrun & Hall & Hdisp1 & Hkept).
      { exists d. exact Hd. }
      { intros it' Hin.
        destruct (Hnodes it') as [[a Ha] [b Hb]]; [by right|].
        destruct (nodes_kept_relabel _ _ _ Hsrc _ _ Ha) as (a' & Ha' & _).
        destruct (nodes_kept_relabel _ _ _ Hsrc _ _ Hb) as (b' & Hb' & _).
        split; eexists; [exact Ha' | exact Hb']. }
      exists (r.1 :: deltas), s1. rewrite Hrun, <- app_assoc. cbn.
      split; [done|]. split; [by constructor|]. split; [done|].
      eapply nodes_kept_trans; [|exact Hkept].
      by apply nodes_kept_relabel.
Qed.

Lemma BuildDeltas_app pre post : forall acc s,
  BuildDeltas (pre ++ post) acc s =
    match BuildDeltas pre acc s with
    | inl e => inl e
    | inr (acc', s') => BuildDeltas post acc' s'
    end.
Proof.
  induction pre as [|it pre IH]; intros acc s; [reflexivity|].
  rewrite <- app_comm_cons. cbn [BuildDeltas].
  unfold bind, gets, deref, modify, ret, abort.
  destruct (quincy_dispatcher_ s) as [d|]; [|reflexivity].
  destruct (FlowGraph.Node (flow_graph_ s) it.1) as [src|]; [|reflexivity].
  destruct (FlowGraph.Node (flow_graph_ s) it.2) as [dst|]; [|reflexivity].
  destruct (decide _) as [Hnoop|Hnoop]; [apply IH|].
  cbn [flow_graph_ set_base].
  destruct (FlowGraph.Node (flow_graph_ s) it.1) as [src'|]; [|reflexivity].
  apply IH.
Qed.

(** One turn of the loop, for a task mapping whose nodes are there. *)
Lemma BuildDeltas_step (s : QuincyScheduler) (it : N * N) (delta : SchedulingDelta.t) :
  binding_delta s it = Some delta ->
  exists s',
    (forall rest acc,
       BuildDeltas (it :: rest) acc s =
         BuildDeltas rest
           (if decide (SchedulingDelta.type delta = SchedulingDelta.NOOP)
            then acc else acc ++ [delta]) s') /\
    quincy_dispatcher_ s' = quincy_dispatcher_ s /\
    nodes_kept (flow_graph_ s) (flow_graph_ s') /\
    (SchedulingDelta.type delta = SchedulingDelta.NOOP ->
       flow_graph_ s' = flow_graph_ s) /\
    (SchedulingDelta.type delta <> SchedulingDelta.NOOP ->
       node_has_type (flow_graph_ s') it.1 SCHEDULED_TASK).
Proof.
  unfold binding_delta. intros Hdelta.
  destruct (quincy_dispatcher_ s) as [d|] eqn:Hd; [|done].
  destruct (FlowGraph.Node (flow_graph_ s) it.1) as [src|] eqn:Hsrc; [|done].
  destruct (FlowGraph.Node (flow_graph_ s) it.2) as [dst|] eqn:Hdst; [|done].
  injection Hdelta as Hdelta.
  pose proof (BuildDeltas_cons it) as Hcons.
  specialize (fun rest acc => Hcons rest acc s d src dst Hd Hsrc Hdst).
  cbn zeta in Hcons. rewrite Hdelta in Hcons.
  destruct (decide (SchedulingDelta.type delta = SchedulingDelta.NOOP)) as [Hnoop|Hnoop].
  - eexists. split; [exact Hcons|]. split; [exact Hd|].
    split; [apply nodes_kept_refl|]. split; [reflexivity|done].
  - eexists. split; [exact Hcons|]. split; [exact Hd|].
    split; [by apply nodes_kept_relabel|]. split; [done|].
    intros _. eexists. split.
    + unfold FlowGraph.Node, FlowGraph.set_node. cbn. apply lookup_insert_eq.
    + reflexivity.
Qed.

Lemma RunDispatcher_leaves_dispatcher s task_mappings s0 :
  RunDispatcher s = inr (task_mappings, s0) -> is_Some (quincy_dispatcher_ s0).
Proof.
  unfold RunDispatcher, bind, gets, deref, modify, ret, abort.
  destruct (quincy_dispatcher_ s) as [d|]; [|done].
  intros [= _ <-]. cbn. eauto.
Qed.

(** C9. Let the dispatcher have answered with task mappings between nodes
    of the graph. The first loop then runs to its end, and the deltas and
    the state it leaves are the ones [ApplySchedulingDeltas] is called with.
    No NOOP delta is among these deltas. For a task mapping whose delta is
    NOOP the turn of the loop leaves the deltas and the flow graph as they
    were. For a task mapping whose delta is anything else the turn appends
    the delta and relabels the task's node SCHEDULED_TASK, and the node
    still has that label when [ApplySchedulingDeltas] starts, whether or
    not the delta will be actioned. *)
Theorem RunSchedulingIteration_relabels_before_apply
    (s s0 : QuincyScheduler) (task_mappings : list (N * N)) :
  RunDispatcher s = inr (task_mappings, s0) ->
  (forall it, it ∈ task_mappings ->
     is_Some (FlowGraph.Node (flow_graph_ s0) it.1) /\
     is_Some (FlowGraph.Node (flow_graph_ s0) it.2)) ->
  exists deltas s1,
    BuildDeltas task_mappings [] s0 = inr (deltas, s1) /\
    RunSchedulingIteration s = ApplyAndReport deltas s1 /\
    Forall (fun d => SchedulingDelta.type d <> SchedulingDelta.NOOP) deltas /\
    (forall pre it post deltas_pre s_pre delta,
       task_mappings = pre ++ it :: post ->
       BuildDeltas pre [] s0 = inr (deltas_pre, s_pre) ->
       binding_delta s_pre it = Some delta ->
       (SchedulingDelta.type delta = SchedulingDelta.NOOP ->
        exists s', BuildDeltas (pre ++ [it]) [] s0 = inr (deltas_pre, s') /\
                   flow_graph_ s' = flow_graph_ s_pre) /\
       (SchedulingDelta.type delta <> SchedulingDelta.NOOP ->
        (exists s', BuildDeltas (pre ++ [it]) [] s0 = inr (deltas_pre ++ [delta], s') /\
                    node_has_type (flow_graph_ s') it.1 SCHEDULED_TASK) /\
        delta ∈ deltas /\
        node_has_type (flow_graph_ s1) it.1 SCHEDULED_TASK)).
Proof.
  intros Hrun Hnodes.
  pose proof (RunDispatcher_leaves_dispatcher _ _ _ Hrun) as Hdisp.
  destruct (BuildDeltas_runs task_mappings [] s0 Hdisp Hnodes)
    as (deltas & s1 & Hbuild & Hall & _ & _).
  exists deltas, s1. split; [exact Hbuild|].
  split; [unfold RunSchedulingIteration, bind; by rewrite Hrun, Hbuild|].
  split; [exact Hall|].
  intros pre it post deltas_pre s_pre delta -> Hpre Hdelta.
  destruct (BuildDeltas_step _ _ _ Hdelta)
    as (s' & Hstep & Hdisp' & Hkept' & Hsame & Hlabel).
  assert (Hturn : BuildDeltas (pre ++ [it]) [] s0 =
            inr (if decide (SchedulingDelta.type delta = SchedulingDelta.NOOP)
                 then deltas_pre else deltas_pre ++ [delta], s')).
  { rewrite BuildDeltas_app, Hpre, Hstep. reflexivity. }
  split.
  - intros Hnoop. rewrite decide_True in Hturn by done. eauto.
  - intros Hnoop. rewrite decide_False in Hturn by done.
    specialize (Hlabel Hnoop).
    split; [eauto|].
    (* the rest of the loop, from the state after this turn *)
    destruct (BuildDeltas_runs pre [] s0 Hdisp) as (ds & sp & Hpre' & _ & Hdp & Hkp).
    { intros it' Hin. apply Hnodes. apply elem_of_app. by left. }
    rewrite Hpre in Hpre'. injection Hpre' as _ <-.
    destruct (BuildDeltas_runs post (deltas_pre ++ [delta]) s')
      as (ds' & s1' & Hpost & _ & _ & Hkept1).
    { by rewrite Hdisp', Hdp. }
    { intros it' Hin.
      destruct (Hnodes it') as [[a Ha] [b Hb]].
      { apply elem_of_app. right. by right. }
      destruct (Hkp _ _ Ha) as (a1 & Ha1 & _). destruct (Hkp _ _ Hb) as (b1 & Hb1 & _).
      destruct (Hkept' _ _ Ha1) as (a2 & Ha2 & _).
      destruct (Hkept' _ _ Hb1) as (b2 & Hb2 & _). eauto. }
    rewrite BuildDeltas_app, Hpre, Hstep, decide_False, Hpost in Hbuild by done.
    injection Hbuild as <- <-.
    split.
    + rewrite !elem_of_app, list_elem_of_singleton. auto.
    + destruct Hlabel as (n & Hn & Hty).
      destruct (Hkept1 _ _ Hn) as (n' & Hn' & Hty'). exists n'. auto.
Qed.

(** ** Scheduling a job *)



End Iteration.

(** On the small cluster the delta for task 1 is a PLACE and is actioned,
    the delta for task 2 is a MIGRATE and is left over: the iteration
    returns 1 and logs that one delta remains. *)
Lemma RunSchedulingIteration_unactioned_warned_witness :
  let deltas := [Demo.place 1 "r"; Demo.migrate 2 "r"] in
  RunSchedulingIteration Demo.busy =
    inr (1, add_log (not_all_processed 1) (after_placements deltas Demo.relabelled)).
Proof.
  intros deltas.
  destruct (@RunSchedulingIteration_unactioned_warned Demo.cluster
              Demo.busy Demo.busy Demo.relabelled
              (after_placements deltas Demo.relabelled)
              Demo.answer deltas
              [SchedulingDelta.set_actioned true (Demo.place 1 "r"); Demo.migrate 2 "r"]
              1) as [Hwarn _].
  - reflexivity.
  - reflexivity.
  - reflexivity.
  - destruct Hwarn as [Hret _].
    + right. left. reflexivity.
    + exact Hret.
Defined.

(** On the small cluster the node of task 2, whose MIGRATE delta is never
    actioned, is a SCHEDULED_TASK when the deltas are applied. *)
Lemma RunSchedulingIteration_relabels_before_apply_witness :
  exists deltas s1,
    BuildDeltas Demo.answer [] Demo.busy = inr (deltas, s1) /\
    RunSchedulingIteration Demo.busy = ApplyAndReport deltas s1 /\
    Demo.migrate 2 "r" ∈ deltas /\
    node_has_type (flow_graph_ s1) 102 SCHEDULED_TASK.
Proof.
  destruct (@RunSchedulingIteration_relabels_before_apply Demo.cluster
              Demo.busy Demo.busy Demo.answer)
    as (deltas & s1 & Hbuild & Hiter & _ & Hturn).
  - reflexivity.
  - intros it Hin. unfold Demo.answer in Hin.
    apply elem_of_cons in Hin as [->|Hin];
      [|apply elem_of_cons in Hin as [->|Hin]; [|by apply elem_of_nil in Hin]];
      split; vm_compute; eauto.
  - exists deltas, s1. split; [exact Hbuild|]. split; [exact Hiter|].
    destruct (Hturn [(101, 2)] (102, 2) [] [Demo.place 1 "r"]
                (set_flow_graph
                   (FlowGraph.set_node 101
                      (Demo.node 101 SCHEDULED_TASK 0 (Some 1) EmptyString) Demo.full_graph)
                   Demo.busy)
                (Demo.migrate 2 "r")) as [_ Hmig].
    + reflexivity.
    + reflexivity.
    + reflexivity.
    + destruct Hmig as (_ & Hin & Hlabel); [discriminate|]. by split.
Defined.


(** * Further properties of the code *)

(** ** Node kinds *)

(** X1. The three kinds are exclusive: no node is at once a task node, a
    resource node or an equivalence class node; and the nodes of no kind
    are exactly the job aggregators and the sink. *)
Theorem node_kinds_exclusive (n : FlowGraphNode.t) :
  (FlowGraphNode.IsTaskNode n && FlowGraphNode.IsResourceNode n = false) /\
  (FlowGraphNode.IsTaskNode n && FlowGraphNode.IsEquivalenceClassNode n = false) /\
  (FlowGraphNode.IsResourceNode n && FlowGraphNode.IsEquivalenceClassNode n = false) /\
  (FlowGraphNode.IsTaskNode n || FlowGraphNode.IsResourceNode n ||
     FlowGraphNode.IsEquivalenceClassNode n = false <->
   FlowGraphNode.type_ n = JOB_AGGREGATOR \/ FlowGraphNode.type_ n = SINK).
Proof.
  unfold FlowGraphNode.IsTaskNode, FlowGraphNode.IsResourceNode,
    FlowGraphNode.IsEquivalenceClassNode.
  destruct (FlowGraphNode.type_ n);
    (split; [reflexivity|]); (split; [reflexivity|]); (split; [reflexivity|]);
    (split; [intros Hnone; first [discriminate Hnone | by left | by right]
            | intros [Hty|Hty]; first [discriminate Hty | reflexivity]]).
Qed.

(** X2. Read off the enumerators' numbers: task nodes are the types
    numbered 0 to 2, equivalence class nodes the type numbered 5, resource
    nodes the types numbered 6 to 12; the numbering is one to one. *)
Theorem node_kinds_by_number (n : FlowGraphNode.t) :
  let v := FlowNodeType_value (FlowGraphNode.type_ n) in
  (0 <= v <= 12)%Z /\
  FlowGraphNode.IsTaskNode n = (v <=? 2)%Z /\
  FlowGraphNode.IsEquivalenceClassNode n = (v =? 5)%Z /\
  FlowGraphNode.IsResourceNode n = (6 <=? v)%Z /\
  (forall ty, FlowNodeType_value ty = v -> ty = FlowGraphNode.type_ n).
Proof.
  unfold FlowGraphNode.IsTaskNode, FlowGraphNode.IsResourceNode,
    FlowGraphNode.IsEquivalenceClassNode.
  destruct (FlowGraphNode.type_ n); cbn zeta;
    (split; [cbn; lia|]); (repeat split; try reflexivity);
    intros ty; destruct ty; cbn; congruence.
Qed.

(** ** Task identifiers *)

(** X3. [==] on task identifiers holds exactly between identifiers that
    are the same value, so it is reflexive, symmetric and transitive, as a
    key type of [unordered_map] must have it. *)
Theorem TaskIdentifier_eq_equivalence (a b c : Sim.TaskIdentifier) :
  (Sim.TaskIdentifier_eq a b = true <-> a = b) /\
  Sim.TaskIdentifier_eq a a = true /\
  Sim.TaskIdentifier_eq a b = Sim.TaskIdentifier_eq b a /\
  (Sim.TaskIdentifier_eq a b = true -> Sim.TaskIdentifier_eq b c = true ->
   Sim.TaskIdentifier_eq a c = true).
Proof.
  assert (Hleibniz : forall x y, Sim.TaskIdentifier_eq x y = true <-> x = y).
  { intros [xj xt] [yj yt]. rewrite TaskIdentifier_eq_true. cbn.
    split; [intros [-> ->]; reflexivity | intros [= -> ->]; auto]. }
  split; [apply Hleibniz|]. split; [by apply Hleibniz|]. split.
  - unfold Sim.TaskIdentifier_eq.
    by rewrite (N.eqb_sym (Sim.job_id a)), (N.eqb_sym (Sim.task_index a)).
  - rewrite !Hleibniz. congruence.
Qed.

Lemma TaskIdentifier_eq_equivalence_witness :
  let a := Sim.mkTaskIdentifier 6251414911 3 in
  Sim.TaskIdentifier_eq a a = true.
Proof.
  intros a.
  destruct (TaskIdentifier_eq_equivalence a a a) as (_ & _ & _ & Htrans).
  apply Htrans; reflexivity.
Defined.

(** X4. The hasher is far from one to one. With a [std::hash<uint64_t>]
    that is the identity on 64-bit values, moving 17 from the task index
    into one more job id leaves the hash as it is: the identifiers
    [(j + 1, t)] and [(j, t + 17)] differ and collide. *)
Theorem TaskIdentifierHasher_collision (hash_uint64 : N -> N) (j t : N) :
  (forall x, x < UINT64_MODULUS -> hash_uint64 x = x) ->
  j + 1 < UINT64_MODULUS ->
  t + 17 < UINT64_MODULUS ->
  let a := Sim.mkTaskIdentifier (j + 1) t in
  let b := Sim.mkTaskIdentifier j (t + 17) in
  Sim.TaskIdentifier_eq a b = false /\
  Sim.TaskIdentifierHasher hash_uint64 a = Sim.TaskIdentifierHasher hash_uint64 b.
Proof.
  intros Hid Hj Ht a b. split.
  - unfold Sim.TaskIdentifier_eq. cbn.
    replace (j + 1 =? j) with false by (symmetry; apply N.eqb_neq; lia).
    reflexivity.
  - unfold Sim.TaskIdentifierHasher. cbn.
    rewrite !Hid by lia.
    rewrite !N.Div0.add_mod_idemp_l. f_equal. lia.
Qed.

Lemma TaskIdentifierHasher_collision_witness :
  Sim.TaskIdentifier_eq (Sim.mkTaskIdentifier 8 3) (Sim.mkTaskIdentifier 7 20) = false /\
  Sim.TaskIdentifierHasher (fun x => x) (Sim.mkTaskIdentifier 8 3) =
    Sim.TaskIdentifierHasher (fun x => x) (Sim.mkTaskIdentifier 7 20).
Proof.
  apply (TaskIdentifierHasher_collision (fun x => x) 7 3).
  - reflexivity.
  - vm_compute. reflexivity.
  - vm_compute. reflexivity.
Defined.

(** ** More on applying scheduling deltas *)

Section ApplyMore.
Context `{Collaborators}.

Lemma same_frame_refl (s : QuincyScheduler) : same_frame s s.
Proof. by repeat split. Qed.

Lemma same_frame_trans (s1 s2 s3 : QuincyScheduler) :
  same_frame s1 s2 -> same_frame s2 s3 -> same_frame s1 s3.
Proof.
  unfold same_frame. intros (-> & -> & ->) (-> & -> & ->). by repeat split.
Qed.

Lemma placed_frame (d : SchedulingDelta.t) (s : QuincyScheduler) :
  same_frame s (placed d s).
Proof.
  unfold placed. destruct (job_of_task _ _); by repeat split.
Qed.

Lemma after_placements_frame (deltas : list SchedulingDelta.t) : forall s,
  same_frame s (after_placements deltas s).
Proof.
  induction deltas as [|d rest IH]; intros s; cbn [after_placements].
  - apply same_frame_refl.
  - destruct (is_PLACE d); [|apply IH].
    eapply same_frame_trans; [apply placed_frame | apply IH].
Qed.

(** Where a placement stops when a descriptor is missing. *)
Lemma PlaceTask_abort_cause (d : SchedulingDelta.t) (s : QuincyScheduler) :
  let task := EventDrivenScheduler.task_map_ (base s) !! SchedulingDelta.task_id d in
  let res := EventDrivenScheduler.resource_map_ (base s) !! delta_resource d in
  let place := PlaceTask (SchedulingDelta.task_id d) (delta_resource d) s in
  (task = None -> place = inl (CHECK_NOTNULL_failed "td")) /\
  (is_Some task -> res = None -> place = inl (CHECK_NOTNULL_failed "rs")) /\
  (is_Some task -> is_Some res ->
   job_of_task (SchedulingDelta.task_id d) (bound d s) = None ->
   place = inl (Undefined "td")) /\
  (is_Some task -> is_Some res ->
   forall job_id,
     job_of_task (SchedulingDelta.task_id d) (bound d s) = Some job_id ->
     EventDrivenScheduler.job_map_ (base (bound d s)) !! job_id = None ->
     place = inl (Undefined "jd")).
Proof.
  cbn zeta. unfold job_of_task.
  unfold PlaceTask, bind, gets, modify, CHECK_NOTNULL, deref, ret, abort.
  fold (delta_resource d).
  destruct (EventDrivenScheduler.task_map_ (base s) !! _) as [td|].
  2:{ split; [done|]. repeat split; by intros []. }
  destruct (EventDrivenScheduler.resource_map_ (base s) !! _) as [rs|].
  2:{ split; [done|]. split; [done|]. split; intros _ []; done. }
  fold (bound d s). cbn beta iota.
  split; [done|]. split; [done|].
  destruct (EventDrivenScheduler.task_map_ (base (bound d s)) !! _) as [td'|].
  2:{ split; [done|]. by intros _ _ job_id. }
  split; [done|]. intros _ _ job_id [= <-] Hjd. by rewrite Hjd.
Qed.

Lemma PlaceTask_not_placeable (d : SchedulingDelta.t) (s : QuincyScheduler) :
  placeable d s = false ->
  exists e, PlaceTask (SchedulingDelta.task_id d) (delta_resource d) s = inl e.
Proof.
  intros Hno.
  destruct (PlaceTask_abort_cause d s) as (Htd & Hrs & Htd' & Hjd).
  unfold placeable in Hno.
  destruct (EventDrivenScheduler.task_map_ (base s) !! _) as [td|];
    [|eexists; by apply Htd].
  destruct (EventDrivenScheduler.resource_map_ (base s) !! _) as [rs|];
    [|eexists; by apply Hrs].
  destruct (job_of_task _ _) as [job_id|] eqn:Hjob;
    [|eexists; by apply Htd'].
  destruct (EventDrivenScheduler.job_map_ (base (bound d s)) !! job_id) eqn:Hmap;
    [discriminate Hno|].
  eexists. by eapply Hjd.
Qed.

Lemma ApplySchedulingDeltas_from_not_placeable deltas : forall n s,
  all_placeable deltas s = false ->
  exists e, ApplySchedulingDeltas_from deltas n s = inl e.
Proof.
  induction deltas as [|d rest IH]; intros n s Hno; [done|].
  cbn [all_placeable] in Hno. destruct (is_PLACE d) eqn:Hd.
  - apply is_PLACE_true in Hd.
    rewrite (ApplySchedulingDeltas_from_cons_PLACE _ _ _ _ Hd).
    destruct (placeable d s) eqn:Hp.
    + rewrite (PlaceTask_placed _ _ Hp).
      destruct (IH ((n + 1) mod UINT64_MODULUS) (placed d s) Hno) as [e ->]. eauto.
    + destruct (PlaceTask_not_placeable _ _ Hp) as [e ->]. eauto.
  - apply is_PLACE_false in Hd.
    rewrite (ApplySchedulingDeltas_from_cons_other _ _ _ _ Hd).
    destruct (IH n s Hno) as [e ->]. eauto.
Qed.

Lemma ApplySchedulingDeltas_from_wraps deltas : forall n s,
  n < UINT64_MODULUS ->
  all_placeable deltas s = true ->
  ApplySchedulingDeltas_from deltas n s =
    inr (((n + N.of_nat (count_PLACE deltas)) mod UINT64_MODULUS,
          mark_PLACE_actioned deltas),
         after_placements deltas s).
Proof.
  induction deltas as [|d rest IH]; intros n s Hn Hok.
  - cbn. unfold ret. rewrite N.add_0_r, N.mod_small; done.
  - unfold count_PLACE in *. cbn [all_placeable after_placements
      mark_PLACE_actioned List.map List.filter] in *.
    destruct (is_PLACE d) eqn:Hd.
    + apply is_PLACE_true in Hd. apply andb_true_iff in Hok as [Hp Hok].
      rewrite (ApplySchedulingDeltas_from_cons_PLACE _ _ _ _ Hd).
      rewrite (PlaceTask_placed _ _ Hp).
      rewrite IH; [|by apply N.mod_upper_bound|done].
      cbn [fst snd length]. rewrite N.Div0.add_mod_idemp_l.
      replace (n + 1 + N.of_nat (length (List.filter is_PLACE rest)))
        with (n + N.of_nat (S (length (List.filter is_PLACE rest)))) by lia.
      reflexivity.
    + apply is_PLACE_false in Hd.
      rewrite (ApplySchedulingDeltas_from_cons_other _ _ _ _ Hd).
      by rewrite IH.
Qed.

Lemma UINT64_MODULUS_pos : 0 < UINT64_MODULUS.
Proof. reflexivity. Qed.

Lemma ApplySchedulingDeltas_returned deltas s r s' :
  ApplySchedulingDeltas deltas s = inr (r, s') ->
  all_placeable deltas s = true /\
  r = (N.of_nat (count_PLACE deltas) mod UINT64_MODULUS, mark_PLACE_actioned deltas) /\
  s' = after_placements deltas s.
Proof.
  unfold ApplySchedulingDeltas. intros Hret.
  destruct (all_placeable deltas s) eqn:Hok.
  - rewrite (ApplySchedulingDeltas_from_wraps _ _ _ UINT64_MODULUS_pos Hok) in Hret.
    injection Hret as <- <-. by rewrite N.add_0_l.
  - destruct (ApplySchedulingDeltas_from_not_placeable deltas 0 s Hok) as [e He].
    congruence.
Qed.

(** X5. Deltas of other types than PLACE are passed over: a vector
    without a PLACE delta, the empty one included, gives 0 and leaves the
    deltas and the whole scheduler as they were, whatever the maps hold. *)
Theorem ApplySchedulingDeltas_without_PLACE
    (deltas : list SchedulingDelta.t) (s : QuincyScheduler) :
  Forall (fun d => SchedulingDelta.type d <> SchedulingDelta.PLACE) deltas ->
  ApplySchedulingDeltas deltas s = inr ((0, deltas), s).
Proof.
  unfold ApplySchedulingDeltas. generalize 0.
  induction 1 as [|d rest Hd _ IH]; [reflexivity|].
  by rewrite (ApplySchedulingDeltas_from_cons_other _ _ _ _ Hd), IH.
Qed.

(** X6. The call returns exactly when each PLACE delta finds, at its turn,
    its task and its resource in the maps and, once the task is bound, the
    task's job in the job map; in every other case it does not return. *)
Theorem ApplySchedulingDeltas_returns_iff
    (deltas : list SchedulingDelta.t) (s : QuincyScheduler) :
  (exists r s', ApplySchedulingDeltas deltas s = inr (r, s')) <->
  all_placeable deltas s = true.
Proof.
  split.
  - intros (r & s' & Hret). by apply ApplySchedulingDeltas_returned in Hret as [? _].
  - intros Hok. unfold ApplySchedulingDeltas.
    rewrite (ApplySchedulingDeltas_from_wraps _ _ _ UINT64_MODULUS_pos Hok). eauto.
Qed.

Lemma mark_PLACE_actioned_keeps (deltas : list SchedulingDelta.t) :
  Forall2 (fun d d' =>
             SchedulingDelta.type d' = SchedulingDelta.type d /\
             SchedulingDelta.task_id d' = SchedulingDelta.task_id d /\
             SchedulingDelta.resource_id d' = SchedulingDelta.resource_id d /\
             SchedulingDelta.actioned d' =
               is_PLACE d || SchedulingDelta.actioned d)
          deltas (mark_PLACE_actioned deltas).
Proof.
  induction deltas as [|d rest IH]; cbn; constructor; [|exact IH].
  destruct (is_PLACE d); by repeat split.
Qed.

(** X7. Whenever the call returns, the count is the number of PLACE
    deltas modulo 2^64; the deltas come back in their order with type, task
    and resource as they were, a delta being actioned afterwards exactly if
    it is a PLACE or was actioned before; the state is the one after the
    placements, and the lock, the log and the dispatcher are untouched. *)
Theorem ApplySchedulingDeltas_result
    (deltas : list SchedulingDelta.t) (s s' : QuincyScheduler)
    (r : N * list SchedulingDelta.t) :
  ApplySchedulingDeltas deltas s = inr (r, s') ->
  r.1 = N.of_nat (count_PLACE deltas) mod UINT64_MODULUS /\
  Forall2 (fun d d' =>
             SchedulingDelta.type d' = SchedulingDelta.type d /\
             SchedulingDelta.task_id d' = SchedulingDelta.task_id d /\
             SchedulingDelta.resource_id d' = SchedulingDelta.resource_id d /\
             SchedulingDelta.actioned d' =
               is_PLACE d || SchedulingDelta.actioned d)
          deltas r.2 /\
  s' = after_placements deltas s /\
  same_frame s s'.
Proof.
  intros Hret. apply ApplySchedulingDeltas_returned in Hret as (_ & -> & ->).
  split; [done|]. split; [apply mark_PLACE_actioned_keeps|].
  split; [done|]. apply after_placements_frame.
Qed.

Lemma ApplySchedulingDeltas_from_shift deltas : forall n m s,
  ApplySchedulingDeltas_from deltas ((n + m) mod UINT64_MODULUS) s =
    match ApplySchedulingDeltas_from deltas m s with
    | inl e => inl e
    | inr (r, s') => inr (((n + r.1) mod UINT64_MODULUS, r.2), s')
    end.
Proof.
  induction deltas as [|d rest IH]; intros n m s; [reflexivity|].
  destruct (decide (SchedulingDelta.type d = SchedulingDelta.PLACE)) as [Hd|Hd].
  - rewrite !(ApplySchedulingDeltas_from_cons_PLACE _ _ _ _ Hd).
    destruct (PlaceTask _ _ s) as [e|[[] s1]]; [done|].
    replace (((n + m) mod UINT64_MODULUS + 1) mod UINT64_MODULUS)
      with ((n + (m + 1) mod UINT64_MODULUS) mod UINT64_MODULUS).
    2:{ rewrite N.Div0.add_mod_idemp_l, N.Div0.add_mod_idemp_r. f_equal. lia. }
    rewrite IH.
    by destruct (ApplySchedulingDeltas_from rest _ s1) as [e|[r s2]].
  - rewrite !(ApplySchedulingDeltas_from_cons_other _ _ _ _ Hd), IH.
    by destruct (ApplySchedulingDeltas_from rest m s) as [e|[r s2]].
Qed.

(** X8. Applying a vector is applying its first part and then, on the
    state that leaves, the rest: the counts add up modulo 2^64, the deltas
    handed back are those of the two parts in order, and an abort in the
    first part is the abort of the whole. *)
Theorem ApplySchedulingDeltas_app
    (pre post : list SchedulingDelta.t) (s : QuincyScheduler) :
  ApplySchedulingDeltas (pre ++ post) s =
    match ApplySchedulingDeltas pre s with
    | inl e => inl e
    | inr (r, s1) =>
        match ApplySchedulingDeltas post s1 with
        | inl e => inl e
        | inr (r', s2) =>
            inr (((r.1 + r'.1) mod UINT64_MODULUS, r.2 ++ r'.2), s2)
        end
    end.
Proof.
  unfold ApplySchedulingDeltas. rewrite ApplySchedulingDeltas_from_app.
  destruct (ApplySchedulingDeltas_from pre 0 s) as [e|[r s1]] eqn:Hpre; [done|].
  assert (Hr : r.1 = (r.1 + 0) mod UINT64_MODULUS).
  { destruct (ApplySchedulingDeltas_returned pre s r s1 Hpre) as (_ & -> & _).
    cbn [fst]. by rewrite N.add_0_r, N.Div0.mod_mod. }
  rewrite Hr at 1. rewrite ApplySchedulingDeltas_from_shift.
  by destruct (ApplySchedulingDeltas_from post 0 s1) as [e|[r' s2]].
Qed.

(** X9. The task is checked before the resource, and the job is not
    checked at all. After the deltas before it, a PLACE delta whose task is
    not in the task map ends the call at [CHECK_NOTNULL(td)], also when the
    resource is missing as well; with the task there and the resource
    missing it ends at [CHECK_NOTNULL(rs)]; with both there and the task's
    job not in the job map, the task is bound and its arcs are updated
    before a null job descriptor is dereferenced. *)
Theorem ApplySchedulingDeltas_abort_cause
    (pre post : list SchedulingDelta.t) (d : SchedulingDelta.t)
    (s s1 : QuincyScheduler) (r : N * list SchedulingDelta.t) :
  ApplySchedulingDeltas pre s = inr (r, s1) ->
  SchedulingDelta.type d = SchedulingDelta.PLACE ->
  let task := EventDrivenScheduler.task_map_ (base s1) !! SchedulingDelta.task_id d in
  let res := EventDrivenScheduler.resource_map_ (base s1) !! delta_resource d in
  let whole := ApplySchedulingDeltas (pre ++ d :: post) s in
  (task = None -> whole = inl (CHECK_NOTNULL_failed "td")) /\
  (is_Some task -> res = None -> whole = inl (CHECK_NOTNULL_failed "rs")) /\
  (is_Some task -> is_Some res ->
   forall job_id,
     job_of_task (SchedulingDelta.task_id d) (bound d s1) = Some job_id ->
     EventDrivenScheduler.job_map_ (base (bound d s1)) !! job_id = None ->
     whole = inl (Undefined "jd")).
Proof.
  intros Hpre Hd task res whole.
  assert (Hwhole : whole =
            match PlaceTask (SchedulingDelta.task_id d) (delta_resource d) s1 with
            | inl e => inl e
            | inr _ => whole
            end).
  { unfold whole, ApplySchedulingDeltas in *.
    rewrite ApplySchedulingDeltas_from_app, Hpre.
    rewrite (ApplySchedulingDeltas_from_cons_PLACE _ _ _ _ Hd).
    by destruct (PlaceTask _ _ s1) as [e|[[] s2]]. }
  destruct (PlaceTask_abort_cause d s1) as (Htd & Hrs & _ & Hjd).
  split; [|split].
  - intros Hnone. rewrite Hwhole. by rewrite (Htd Hnone).
  - intros Hsome Hnone. rewrite Hwhole. by rewrite (Hrs Hsome Hnone).
  - intros Hsome Hsome' job_id Hjob Hnone. rewrite Hwhole.
    by rewrite (Hjd Hsome Hsome' job_id Hjob Hnone).
Qed.

End ApplyMore.

Lemma ApplySchedulingDeltas_without_PLACE_witness :
  ApplySchedulingDeltas [Demo.migrate 2 "r"] Demo.idle =
    inr ((0, [Demo.migrate 2 "r"]), Demo.idle).
Proof.
  apply (@ApplySchedulingDeltas_without_PLACE Demo.cluster).
  constructor; [discriminate | constructor].
Defined.

Lemma ApplySchedulingDeltas_result_witness :
  let s := Demo.scheduler Demo.full_base Demo.full_graph [] in
  let deltas := [Demo.place 1 "r"; Demo.migrate 2 "r"] in
  same_frame s (after_placements deltas s).
Proof.
  intros s deltas.
  destruct (@ApplySchedulingDeltas_result Demo.cluster deltas s
              (after_placements deltas s)
              (1, [SchedulingDelta.set_actioned true (Demo.place 1 "r");
                   Demo.migrate 2 "r"]))
    as (_ & _ & _ & Hframe).
  - reflexivity.
  - exact Hframe.
Defined.

(** Unknown task 9: the call stops at the check of [td]. A task whose job
    was never registered: the call stops at the job descriptor. *)
Lemma ApplySchedulingDeltas_abort_cause_witness :
  let s := Demo.scheduler Demo.full_base Demo.full_graph [] in
  let orphan :=
    Demo.scheduler
      (EventDrivenScheduler.set_job_map ∅ Demo.full_base) Demo.full_graph [] in
  ApplySchedulingDeltas ([Demo.place 1 "r"] ++ Demo.place 9 "rrr" :: []) s =
    inl (CHECK_NOTNULL_failed "td") /\
  ApplySchedulingDeltas ([] ++ Demo.place 1 "rrr" :: []) s =
    inl (CHECK_NOTNULL_failed "rs") /\
  ApplySchedulingDeltas ([] ++ Demo.place 1 "r" :: []) orphan =
    inl (Undefined "jd").
Proof.
  intros s orphan. split; [|split].
  - destruct (@ApplySchedulingDeltas_abort_cause Demo.cluster
                [Demo.place 1 "r"] [] (Demo.place 9 "rrr") s
                (after_placements [Demo.place 1 "r"] s)
                (1, [SchedulingDelta.set_actioned true (Demo.place 1 "r")]))
      as (Htd & _); [reflexivity | reflexivity |].
    apply Htd. reflexivity.
  - destruct (@ApplySchedulingDeltas_abort_cause Demo.cluster
                [] [] (Demo.place 1 "rrr") s s (0, []))
      as (_ & Hrs & _); [reflexivity | reflexivity |].
    apply Hrs; [by eexists | reflexivity].
  - destruct (@ApplySchedulingDeltas_abort_cause Demo.cluster
                [] [] (Demo.place 1 "r") orphan orphan (0, []))
      as (_ & _ & Hjd); [reflexivity | reflexivity |].
    apply (Hjd ltac:(by eexists) ltac:(by eexists) 1); reflexivity.
Defined.

(** ** More on the scheduling iteration *)

Section IterationMore.
Context `{Collaborators}.

Lemma relabelled_only_refl fg : relabelled_only fg fg.
Proof. split; [done|]. intros id. by left. Qed.

Lemma relabelled_only_trans fg1 fg2 fg3 :
  relabelled_only fg1 fg2 -> relabelled_only fg2 fg3 -> relabelled_only fg1 fg3.
Proof.
  intros [Hcm12 H12] [Hcm23 H23]. split; [congruence|]. intros id.
  destruct (H12 id) as [Heq12|(n & Hn & Hn')];
    destruct (H23 id) as [Heq23|(n2 & Hn2 & Hn2')].
  - left. congruence.
  - right. exists n2. split; congruence.
  - right. exists n. split; congruence.
  - right. exists n. split; [done|]. rewrite Hn2'.
    rewrite Hn' in Hn2. by injection Hn2 as <-.
Qed.

Lemma relabelled_only_set_node fg id src :
  FlowGraph.Node fg id = Some src ->
  relabelled_only fg
    (FlowGraph.set_node id (FlowGraphNode.set_type SCHEDULED_TASK src) fg).
Proof.
  intros Hsrc. split; [done|]. intros id'.
  unfold FlowGraph.Node, FlowGraph.set_node in *. cbn.
  destruct (decide (id = id')) as [->|Hne].
  - right. exists src. by rewrite lookup_insert_eq.
  - left. by rewrite lookup_insert_ne.
Qed.

Lemma relabelled_only_NumNodes fg fg' :
  relabelled_only fg fg' -> FlowGraph.NumNodes fg' = FlowGraph.NumNodes fg.
Proof.
  intros [_ Hrel]. unfold FlowGraph.NumNodes. f_equal.
  rewrite <- !size_dom. f_equal. apply set_eq. intros id.
  rewrite !elem_of_dom. unfold FlowGraph.Node in Hrel.
  destruct (Hrel id) as [->|(n & -> & ->)]; [done|]. split; eauto.
Qed.

Lemma BuildDeltas_cons_returned it rest acc s r :
  BuildDeltas (it :: rest) acc s = inr r ->
  exists d src dst,
    quincy_dispatcher_ s = Some d /\
    FlowGraph.Node (flow_graph_ s) it.1 = Some src /\
    FlowGraph.Node (flow_graph_ s) it.2 = Some dst.
Proof.
  cbn [BuildDeltas]. unfold bind, gets, deref, modify, ret, abort.
  destruct (quincy_dispatcher_ s) as [d|]; [|done].
  destruct (FlowGraph.Node (flow_graph_ s) it.1) as [src|]; [|done].
  destruct (FlowGraph.Node (flow_graph_ s) it.2) as [dst|]; [|done].
  eauto 10.
Qed.

(** What a run of the first loop that comes to its end has done. *)
Lemma BuildDeltas_returned task_mappings : forall acc s deltas s1,
  BuildDeltas task_mappings acc s = inr (deltas, s1) ->
  (exists built,
     deltas = acc ++ built /\
     (length built <= length task_mappings)%nat /\
     Forall (fun d => SchedulingDelta.type d <> SchedulingDelta.NOOP) built) /\
  relabelled_only (flow_graph_ s) (flow_graph_ s1) /\
  EventDrivenScheduler.job_map_ (base s1) = EventDrivenScheduler.job_map_ (base s) /\
  EventDrivenScheduler.task_map_ (base s1) = EventDrivenScheduler.task_map_ (base s) /\
  EventDrivenScheduler.resource_map_ (base s1) =
    EventDrivenScheduler.resource_map_ (base s) /\
  same_frame s s1.
Proof.
  induction task_mappings as [|it rest IH]; intros acc s deltas s1 Hret.
  - injection Hret as <- <-. split.
    + exists []. rewrite app_nil_r. split; [done|]. split; [done|constructor].
    + split; [apply relabelled_only_refl|]. by repeat split.
  - destruct (BuildDeltas_cons_returned _ _ _ _ _ Hret)
      as (d & src & dst & Hd & Hsrc & Hdst).
    rewrite (BuildDeltas_cons _ _ _ _ _ _ _ Hd Hsrc Hdst) in Hret.
    destruct (decide _) as [Hnoop|Hnoop].
    + apply IH in Hret as ((built & -> & Hlen & Hall) & Hrel & Hj & Ht & Hr & Hf).
      split; [exists built; cbn [length]; split; [done|]; split; [lia|done]|].
      split; [exact Hrel|]. split; [exact Hj|]. split; [exact Ht|].
      split; [exact Hr|exact Hf].
    + apply IH in Hret as ((built & -> & Hlen & Hall) & Hrel & Hj & Ht & Hr & Hf).
      split.
      { eexists (_ :: built). rewrite <- app_assoc. split; [reflexivity|].
        cbn [length]. split; [lia|]. by constructor. }
      split.
      { eapply relabelled_only_trans; [|exact Hrel].
        by apply relabelled_only_set_node. }
      split; [exact Hj|]. split; [exact Ht|]. split; [exact Hr|exact Hf].
Qed.

(** X10. The first loop of an iteration changes nothing in the flow graph
    but type labels, and those only to SCHEDULED_TASK: when it comes to its
    end the graph has the same cost model and the same number of nodes, and
    every node is as it was or is the old node relabelled. The job, task and
    resource maps, the lock, the log and the dispatcher are as they were,
    and at most one delta was built for each task mapping. *)
Theorem BuildDeltas_only_relabels
    (task_mappings : list (N * N)) (s s1 : QuincyScheduler)
    (deltas : list SchedulingDelta.t) :
  BuildDeltas task_mappings [] s = inr (deltas, s1) ->
  relabelled_only (flow_graph_ s) (flow_graph_ s1) /\
  FlowGraph.NumNodes (flow_graph_ s1) = FlowGraph.NumNodes (flow_graph_ s) /\
  EventDrivenScheduler.job_map_ (base s1) = EventDrivenScheduler.job_map_ (base s) /\
  EventDrivenScheduler.task_map_ (base s1) = EventDrivenScheduler.task_map_ (base s) /\
  EventDrivenScheduler.resource_map_ (base s1) =
    EventDrivenScheduler.resource_map_ (base s) /\
  same_frame s s1 /\
  (length deltas <= length task_mappings)%nat.
Proof.
  intros Hret.
  apply BuildDeltas_returned in Hret as ((built & -> & Hlen & _) & Hrel & Hj & Ht & Hr & Hf).
  split; [exact Hrel|]. split; [by apply relabelled_only_NumNodes|].
  split; [exact Hj|]. split; [exact Ht|]. split; [exact Hr|]. split; [exact Hf|].
  exact Hlen.
Qed.

Lemma erase_actioned_marked (deltas : list SchedulingDelta.t) :
  erase_actioned (mark_PLACE_actioned deltas) = List.filter left_over deltas.
Proof.
  unfold left_over. induction deltas as [|d rest IH]; [reflexivity|].
  cbn [mark_PLACE_actioned List.map erase_actioned List.filter].
  fold (mark_PLACE_actioned rest). rewrite IH.
  destruct (is_PLACE d); [reflexivity|].
  by destruct (SchedulingDelta.actioned d).
Qed.

Lemma placed_and_left_over_le (deltas : list SchedulingDelta.t) :
  (count_PLACE deltas + length (List.filter left_over deltas) <= length deltas)%nat.
Proof.
  unfold count_PLACE, left_over. induction deltas as [|d rest IH]; [done|].
  cbn [List.filter]. destruct (is_PLACE d); cbn [negb andb length]; [lia|].
  destruct (negb (SchedulingDelta.actioned d)); cbn [length]; lia.
Qed.

Lemma ApplyAndReport_returned deltas s n s' :
  ApplyAndReport deltas s = inr (n, s') ->
  all_placeable deltas s = true /\
  n = N.of_nat (count_PLACE deltas) mod UINT64_MODULUS /\
  s' = match List.filter left_over deltas with
       | [] => after_placements deltas s
       | _ :: _ =>
           add_log (not_all_processed (length (List.filter left_over deltas)))
                   (after_placements deltas s)
       end.
Proof.
  intros Hret.
  destruct (ApplySchedulingDeltas deltas s) as [e|[r s2]] eqn:Happly.
  - unfold ApplyAndReport, bind in Hret. by rewrite Happly in Hret.
  - destruct r as [c ds].
    rewrite (ApplyAndReport_returns _ _ _ _ _ Happly) in Hret.
    apply ApplySchedulingDeltas_returned in Happly as (Hok & [= -> ->] & ->).
    rewrite erase_actioned_marked in Hret. injection Hret as <- <-. done.
Qed.

(** X11. From the call of [ApplySchedulingDeltas] on, with deltas that can
    all be placed: the count comes back, and the deltas left over at the
    end are exactly those that are not PLACE and came un-actioned; a PLACE
    delta is never among them. One warning with their number is logged if
    there is any, nothing otherwise. *)
Theorem ApplyAndReport_left_over
    (deltas : list SchedulingDelta.t) (s : QuincyScheduler) :
  all_placeable deltas s = true ->
  let rest := List.filter left_over deltas in
  ApplyAndReport deltas s =
    inr (N.of_nat (count_PLACE deltas) mod UINT64_MODULUS,
         match rest with
         | [] => after_placements deltas s
         | _ :: _ => add_log (not_all_processed (length rest))
                             (after_placements deltas s)
         end) /\
  Forall (fun d => SchedulingDelta.type d <> SchedulingDelta.PLACE) rest /\
  (count_PLACE deltas + length rest <= length deltas)%nat.
Proof.
  intros Hok rest. split; [|split].
  - assert (Happly : ApplySchedulingDeltas deltas s =
                       inr ((N.of_nat (count_PLACE deltas) mod UINT64_MODULUS,
                             mark_PLACE_actioned deltas), after_placements deltas s)).
    { unfold ApplySchedulingDeltas.
      rewrite (ApplySchedulingDeltas_from_wraps _ _ _ UINT64_MODULUS_pos Hok).
      by rewrite N.add_0_l. }
    rewrite (ApplyAndReport_returns _ _ _ _ _ Happly).
    by rewrite erase_actioned_marked.
  - apply Forall_forall. intros d Hd. apply list_elem_of_In in Hd.
    apply List.filter_In in Hd as [_ Hd]. unfold left_over in Hd.
    apply andb_true_iff in Hd as [Hd _]. apply negb_true_iff in Hd.
    by apply is_PLACE_false.
  - apply placed_and_left_over_le.
Qed.

Lemma RunDispatcher_returned s task_mappings s0 :
  RunDispatcher s = inr (task_mappings, s0) ->
  scheduling_lock_ s0 = scheduling_lock_ s /\ log_ s0 = log_ s /\
  base s0 = base s.
Proof.
  unfold RunDispatcher, bind, gets, deref, modify, ret, abort.
  destruct (quincy_dispatcher_ s) as [d|]; [|done].
  by intros [= _ <-].
Qed.

(** What an iteration that returns has done to the log and the lock, and
    how its count relates to the dispatcher's answer. *)
Lemma RunSchedulingIteration_returned s n s' :
  RunSchedulingIteration s = inr (n, s') ->
  exists task_mappings s0 (k : nat),
    RunDispatcher s = inr (task_mappings, s0) /\
    n + N.of_nat k <= N.of_nat (length task_mappings) /\
    log_ s' = log_ s ++ match k with
                        | O => []
                        | S _ => [not_all_processed k]
                        end /\
    scheduling_lock_ s' = scheduling_lock_ s.
Proof.
  unfold RunSchedulingIteration. unfold bind at 1.
  destruct (RunDispatcher s) as [e|[task_mappings s0]] eqn:Hrun; [done|].
  unfold bind at 1.
  destruct (BuildDeltas task_mappings [] s0) as [e|[deltas s1]] eqn:Hbuild; [done|].
  intros (Hok & -> & ->)%ApplyAndReport_returned.
  apply RunDispatcher_returned in Hrun as Hrun'. destruct Hrun' as (Hl0 & Hg0 & _).
  apply BuildDeltas_returned in Hbuild
    as ((built & -> & Hlen & _) & _ & _ & _ & _ & (Hl1 & Hg1 & _)).
  cbn [app] in *.
  destruct (after_placements_frame built s1) as (Hl2 & Hg2 & _).
  pose proof (placed_and_left_over_le built) as Hle.
  pose proof (N.Div0.mod_le (N.of_nat (count_PLACE built)) UINT64_MODULUS) as Hmod.
  exists task_mappings, s0, (length (List.filter left_over built)).
  split; [done|]. split; [lia|].
  destruct (List.filter left_over built) as [|d rest]; cbn [length].
  - rewrite app_nil_r. split; congruence.
  - cbn. split; [|congruence]. by rewrite Hg2, Hg1, Hg0.
Qed.

(** X12. An iteration that returns has accounted for each task mapping at
    most once: the count it returns and the number of deltas it leaves
    unprocessed add up to no more than the number of task mappings the
    dispatcher answered with. It appends to the log one warning carrying
    that number of leftovers, or nothing when there are none, and it leaves
    the scheduling lock as it found it. *)
Theorem RunSchedulingIteration_accounts
    (s s0 s' : QuincyScheduler) (task_mappings : list (N * N)) (n : N) :
  RunDispatcher s = inr (task_mappings, s0) ->
  RunSchedulingIteration s = inr (n, s') ->
  exists k : nat,
    n + N.of_nat k <= N.of_nat (length task_mappings) /\
    log_ s' = log_ s ++ match k with
                        | O => []
                        | S _ => [not_all_processed k]
                        end /\
    scheduling_lock_ s' = scheduling_lock_ s.
Proof.
  intros Hrun Hret.
  apply RunSchedulingIteration_returned in Hret as (ms & s0' & k & Hrun' & Hk).
  rewrite Hrun in Hrun'. injection Hrun' as <- <-. eauto.
Qed.

Lemma ScheduleJob_lock_free (job_desc : JobDescriptor.t) (s : QuincyScheduler) :
  scheduling_lock_ s = false ->
  let stop := (INFO, [Str "STOP SCHEDULING "; Str (JobDescriptor.uuid job_desc)]) in
  let runnable := EventDrivenScheduler_RunnableTasksForJob job_desc (base s) in
  let locked :=
    set_base runnable.2
      (add_log (INFO, [Str "START SCHEDULING "; Str (JobDescriptor.uuid job_desc)])
         (set_scheduling_lock true s)) in
  ScheduleJob job_desc s =
    if 0 <? N.of_nat (size runnable.1)
    then match RunSchedulingIteration
                 (set_flow_graph
                    (FlowGraph_AddOrUpdateJobNodes (base locked) job_desc
                       (flow_graph_ locked)) locked) with
         | inl e => inl e
         | inr (newly_scheduled, s') =>
             inr (newly_scheduled, set_scheduling_lock false (add_log stop s'))
         end
    else inr (0, set_scheduling_lock false (add_log stop locked)).
Proof.
  intros Hfree stop runnable locked.
  assert (Hhead : forall k : gset TaskID_t -> M N,
    bind lock_scheduling_lock (fun _ =>
      bind (LOG INFO [Str "START SCHEDULING "; Str (JobDescriptor.uuid job_desc)])
        (fun _ => bind (RunnableTasksForJob job_desc) k)) s = k runnable.1 locked).
  { intros k. unfold lock_scheduling_lock, bind, gets, LOG, modify. by rewrite Hfree. }
  unfold ScheduleJob. rewrite Hhead.
  destruct (0 <? N.of_nat (size runnable.1)); [|reflexivity].
  unfold bind at 1. unfold modify at 1. unfold bind at 1.
  by destruct (RunSchedulingIteration _) as [e|[n s']].
Qed.

Lemma lock_scheduling_lock_held {A : Type} (k : unit -> M A) (s : QuincyScheduler) :
  scheduling_lock_ s = true -> bind lock_scheduling_lock k s = inl Deadlock.
Proof.
  intros Hheld. unfold bind at 1. unfold lock_scheduling_lock, bind, gets.
  by rewrite Hheld.
Qed.

Lemma lock_scheduling_lock_free {A : Type} (k : unit -> M A) (s : QuincyScheduler) :
  scheduling_lock_ s = false ->
  bind lock_scheduling_lock k s = k tt (set_scheduling_lock true s).
Proof.
  intros Hfree. unfold bind at 1. unfold lock_scheduling_lock, bind, gets, modify.
  by rewrite Hfree.
Qed.

(** X13. A call of [ScheduleJob] that returns found the scheduling lock
    free and leaves it free, and what it appended to the log starts with the
    START record of the job and ends with its STOP record, with nothing in
    between but at most the one warning of the iteration. *)
Theorem ScheduleJob_log_and_lock
    (job_desc : JobDescriptor.t) (s s' : QuincyScheduler) (n : N) :
  ScheduleJob job_desc s = inr (n, s') ->
  scheduling_lock_ s = false /\
  scheduling_lock_ s' = false /\
  exists warning,
    log_ s' =
      log_ s ++
      [(INFO, [Str "START SCHEDULING "; Str (JobDescriptor.uuid job_desc)])] ++
      warning ++
      [(INFO, [Str "STOP SCHEDULING "; Str (JobDescriptor.uuid job_desc)])] /\
    (warning = [] \/ exists k, (0 < k)%nat /\ warning = [not_all_processed k]).
Proof.
  intros Hret.
  destruct (scheduling_lock_ s) eqn:Hlock.
  { unfold ScheduleJob in Hret.
    by rewrite (lock_scheduling_lock_held _ _ Hlock) in Hret. }
  rewrite (ScheduleJob_lock_free job_desc s Hlock) in Hret. cbn zeta in Hret.
  split; [done|].
  destruct (0 <? N.of_nat (size _)).
  2:{ injection Hret as <- <-.
      split; [reflexivity|]. exists []. split; [|by left].
      cbn. by rewrite <- app_assoc. }
  - destruct (RunSchedulingIteration _) as [e|[n' s2]] eqn:Hiter; [done|].
    injection Hret as <- <-.
    apply RunSchedulingIteration_returned in Hiter as (ms & s0 & k & _ & _ & Hlog & _).
    split; [reflexivity|].
    exists (match k with O => [] | S _ => [not_all_processed k] end).
    split.
    + cbn [log_ set_scheduling_lock add_log]. rewrite Hlog. cbn.
      by rewrite <- !app_assoc.
    + destruct k; [by left|]. right. exists (S k). split; [lia|done].
Qed.

End IterationMore.

Lemma BuildDeltas_only_relabels_witness :
  FlowGraph.NumNodes (flow_graph_ Demo.relabelled) =
    FlowGraph.NumNodes (flow_graph_ Demo.busy) /\
  same_frame Demo.busy Demo.relabelled.
Proof.
  destruct (@BuildDeltas_only_relabels Demo.cluster Demo.answer
              Demo.busy Demo.relabelled [Demo.place 1 "r"; Demo.migrate 2 "r"])
    as (_ & Hnum & _ & _ & _ & Hframe & _).
  - reflexivity.
  - by split.
Defined.

Lemma ApplyAndReport_left_over_witness :
  let deltas := [Demo.place 1 "r"; Demo.migrate 2 "r"] in
  ApplyAndReport deltas Demo.relabelled =
    inr (1, add_log (not_all_processed 1) (after_placements deltas Demo.relabelled)).
Proof.
  intros deltas.
  destruct (@ApplyAndReport_left_over Demo.cluster deltas Demo.relabelled)
    as (Hret & _ & _).
  - reflexivity.
  - exact Hret.
Defined.

Lemma RunSchedulingIteration_accounts_witness :
  exists k : nat,
    1 + N.of_nat k <= 2 /\
    log_ (add_log (not_all_processed 1)
            (after_placements [Demo.place 1 "r"; Demo.migrate 2 "r"] Demo.relabelled)) =
      log_ Demo.busy ++ match k with
                        | O => []
                        | S _ => [not_all_processed k]
                        end.
Proof.
  destruct (@RunSchedulingIteration_accounts Demo.cluster
              Demo.busy Demo.busy
              (add_log (not_all_processed 1)
                 (after_placements [Demo.place 1 "r"; Demo.migrate 2 "r"]
                    Demo.relabelled))
              Demo.answer 1) as (k & Hle & Hlog & _).
  - reflexivity.
  - reflexivity.
  - exists k. by split.
Defined.

Lemma ScheduleJob_log_and_lock_witness :
  let start := (INFO, [Str "START SCHEDULING "; Str "j"]) in
  let stop := (INFO, [Str "STOP SCHEDULING "; Str "j"]) in
  let s' := set_scheduling_lock false
              (add_log stop (add_log start (set_scheduling_lock true Demo.idle))) in
  scheduling_lock_ Demo.idle = false /\ scheduling_lock_ s' = false.
Proof.
  intros start stop s'.
  destruct (@ScheduleJob_log_and_lock Demo.cluster Demo.job_j Demo.idle s' 0)
    as (Hfree & Hfree' & _).
  - reflexivity.
  - by split.
Defined.

(** ** The lock, completions and registrations *)

Section Locking.
Context `{Collaborators} `{CompletionCollaborators}.

Lemma ScheduleJob_returned_lock job_desc s n s' :
  ScheduleJob job_desc s = inr (n, s') ->
  scheduling_lock_ s = false /\ scheduling_lock_ s' = false.
Proof.
  intros Hret. destruct (scheduling_lock_ s) eqn:Hlock.
  { unfold ScheduleJob in Hret.
    by rewrite (lock_scheduling_lock_held _ _ Hlock) in Hret. }
  split; [done|].
  rewrite (ScheduleJob_lock_free job_desc s Hlock) in Hret. cbn zeta in Hret.
  destruct (0 <? N.of_nat (size _)).
  - destruct (RunSchedulingIteration _) as [e|[n' s2]]; [done|].
    by injection Hret as <- <-.
  - by injection Hret as <- <-.
Qed.

Lemma HandleJobCompletion_free job_id s :
  scheduling_lock_ s = false ->
  let e := EventDrivenScheduler_HandleJobCompletion job_id (base s) in
  HandleJobCompletion job_id s =
    inr (tt, set_scheduling_lock false
               (set_flow_graph (FlowGraph_DeleteNodesForJob e job_id (flow_graph_ s))
                  (set_scheduling_lock true (set_base e s)))).
Proof.
  intros Hfree e. unfold HandleJobCompletion.
  unfold bind at 1. unfold modify at 1.
  by rewrite lock_scheduling_lock_free.
Qed.

Lemma HandleTaskCompletion_free td_ptr report s :
  scheduling_lock_ s = false ->
  let r := EventDrivenScheduler_HandleTaskCompletion td_ptr report (base s) in
  HandleTaskCompletion td_ptr report s =
    inr (r.1,
         set_scheduling_lock false
           (set_flow_graph
              (FlowGraph_DeleteTaskNode r.2 (TaskDescriptor.uid r.1.1) (flow_graph_ s))
              (set_scheduling_lock true (set_base r.2 s)))).
Proof.
  intros Hfree r. unfold HandleTaskCompletion.
  unfold bind at 1. unfold gets at 1. unfold bind at 1. unfold modify at 1.
  by rewrite lock_scheduling_lock_free.
Qed.

(** X14. The three entry points that take the scheduling lock,
    [ScheduleJob], [HandleJobCompletion] and [HandleTaskCompletion], never
    return when they find it held, and whenever one of them returns the
    lock was free before and is free after. The two completion handlers,
    entered with the lock free, always return, and leave the log and the
    dispatcher as they were. *)
Theorem scheduling_lock_balanced
    (job_desc : JobDescriptor.t) (job_id : JobID_t)
    (td_ptr : TaskDescriptor.t) (report : TaskFinalReport) (s : QuincyScheduler) :
  (scheduling_lock_ s = true ->
   ScheduleJob job_desc s = inl Deadlock /\
   HandleJobCompletion job_id s = inl Deadlock /\
   HandleTaskCompletion td_ptr report s = inl Deadlock) /\
  (forall n s', ScheduleJob job_desc s = inr (n, s') ->
     scheduling_lock_ s = false /\ scheduling_lock_ s' = false) /\
  (forall u s', HandleJobCompletion job_id s = inr (u, s') ->
     scheduling_lock_ s = false /\ scheduling_lock_ s' = false) /\
  (forall r s', HandleTaskCompletion td_ptr report s = inr (r, s') ->
     scheduling_lock_ s = false /\ scheduling_lock_ s' = false) /\
  (scheduling_lock_ s = false ->
   (exists s', HandleJobCompletion job_id s = inr (tt, s') /\
               log_ s' = log_ s /\ quincy_dispatcher_ s' = quincy_dispatcher_ s) /\
   (exists r s', HandleTaskCompletion td_ptr report s = inr (r, s') /\
                 log_ s' = log_ s /\ quincy_dispatcher_ s' = quincy_dispatcher_ s)).
Proof.
  assert (Hheld : scheduling_lock_ s = true ->
    ScheduleJob job_desc s = inl Deadlock /\
    HandleJobCompletion job_id s = inl Deadlock /\
    HandleTaskCompletion td_ptr report s = inl Deadlock).
  { intros Hlock. split; [|split].
    - unfold ScheduleJob. by apply lock_scheduling_lock_held.
    - unfold HandleJobCompletion. unfold bind at 1. unfold modify at 1.
      by apply lock_scheduling_lock_held.
    - unfold HandleTaskCompletion.
      unfold bind at 1. unfold gets at 1. unfold bind at 1. unfold modify at 1.
      by apply lock_scheduling_lock_held. }
  split; [exact Hheld|]. split; [apply ScheduleJob_returned_lock|].
  split; [|split].
  - intros u s' Hret. destruct (scheduling_lock_ s) eqn:Hlock.
    + destruct (Hheld eq_refl) as (_ & Hjob & _). congruence.
    + rewrite (HandleJobCompletion_free _ _ Hlock) in Hret.
      by injection Hret as _ <-.
  - intros r s' Hret. destruct (scheduling_lock_ s) eqn:Hlock.
    + destruct (Hheld eq_refl) as (_ & _ & Htask). congruence.
    + rewrite (HandleTaskCompletion_free _ _ _ Hlock) in Hret.
      by injection Hret as <- <-.
  - intros Hlock. split.
    + rewrite (HandleJobCompletion_free _ _ Hlock). eauto.
    + rewrite (HandleTaskCompletion_free _ _ _ Hlock). eauto.
Qed.

(** X15. [RegisterResource] does not take the scheduling lock: it returns
    whether the lock is held or not, and leaves it as it is. The flow graph
    is updated first, from the topology and the state of the base class as
    they are before the base class registers the resource (the initial
    addition on a graph of one node, the incremental update otherwise);
    only then is the resource registered with the base class. *)
Theorem RegisterResource_without_lock
    (res_id : ResourceID_t) (local : bool) (s : QuincyScheduler) :
  let root := EventDrivenScheduler_resource_topology_ (base s) in
  exists s',
    RegisterResource res_id local s = inr (tt, s') /\
    same_frame s s' /\
    base s' = EventDrivenScheduler_RegisterResource res_id local (base s) /\
    flow_graph_ s' =
      if FlowGraph.NumNodes (flow_graph_ s) =? 1
      then FlowGraph_AddResourceTopology (base s) root (flow_graph_ s)
      else FlowGraph_UpdateResourceTopology (base s) root (flow_graph_ s).
Proof.
  intros root. unfold RegisterResource, UpdateResourceTopology.
  unfold bind, gets, modify. fold root. destruct (FlowGraph.NumNodes (flow_graph_ s) =? 1);
    eexists; (split; [reflexivity|]); by repeat split.
Qed.

End Locking.

Lemma scheduling_lock_balanced_witness :
  ScheduleJob Demo.job_j DemoMore.held = inl Deadlock /\
  @HandleJobCompletion Demo.cluster DemoMore.completion 1 DemoMore.held = inl Deadlock /\
  exists s', @HandleJobCompletion Demo.cluster DemoMore.completion 1 Demo.busy =
               inr (tt, s') /\ log_ s' = log_ Demo.busy.
Proof.
  destruct (@scheduling_lock_balanced Demo.cluster DemoMore.completion
              Demo.job_j 1 (Demo.task 1) 0 DemoMore.held) as (Hheld & _).
  destruct (@scheduling_lock_balanced Demo.cluster DemoMore.completion
              Demo.job_j 1 (Demo.task 1) 0 Demo.busy) as (_ & _ & _ & _ & Hfree).
  destruct (Hheld eq_refl) as (Hjob & Hdone & _).
  destruct (Hfree eq_refl) as ((s' & Hret & Hlog & _) & _).
  split; [exact Hjob|]. split; [exact Hdone|]. exists s'. by split.
Defined.

(** ** Construction *)

Section ConstructionMore.
Context `{Collaborators}.

Lemma select_cost_model_in_range v :
  (0 <= v <= 3)%Z -> exists cm, select_cost_model v = inr cm.
Proof.
  intros Hv.
  assert (Hcases : (v = 0 \/ v = 1 \/ v = 2 \/ v = 3)%Z) by lia.
  destruct Hcases as [-> | [-> | [-> | ->]]]; eexists; reflexivity.
Qed.

(** X16. Construction returns exactly for the selector values 0 to 3. The
    scheduler it returns has the base class's state as given, the lock free,
    one INFO record in the log, and a dispatcher built over the flow graph
    as it is after the first topology update, so that the dispatcher can be
    run at once. For every other value, negative ones and 4 and 5 included,
    the process ends in [LOG(FATAL)] with that value. *)
Theorem QuincyScheduler_new_returns_iff
    (v : Z) (eds : EventDrivenScheduler.t)
    (root : ResourceTopologyNodeDescriptor) (params : string) :
  ((exists this, QuincyScheduler_new v eds root params = inr this) <->
   (0 <= v <= 3)%Z) /\
  (forall this, QuincyScheduler_new v eds root params = inr this ->
     base this = eds /\
     scheduling_lock_ this = false /\
     log_ this = [(INFO, [Str "QuincyScheduler initiated; parameters: ";
                          Str params])] /\
     quincy_dispatcher_ this = Some (QuincyDispatcher_new (flow_graph_ this) false) /\
     exists task_mappings s0, RunDispatcher this = inr (task_mappings, s0)) /\
  (~ (0 <= v <= 3)%Z ->
   QuincyScheduler_new v eds root params =
     inl (LOG_FATAL "Unknown flow scheduling cost model specificed " v)).
Proof.
  assert (Hfatal : ~ (0 <= v <= 3)%Z ->
    QuincyScheduler_new v eds root params =
      inl (LOG_FATAL "Unknown flow scheduling cost model specificed " v)).
  { intros Hv. apply QuincyScheduler_new_unknown. lia. }
  split; [|split; [|exact Hfatal]].
  - split.
    + intros [this Hret]. destruct (decide (0 <= v <= 3)%Z) as [|Hv]; [done|].
      rewrite (Hfatal Hv) in Hret. done.
    + intros [cm Hcm]%select_cost_model_in_range.
      rewrite (QuincyScheduler_new_selected _ _ _ _ _ Hcm). eauto.
  - intros this Hret. destruct (decide (0 <= v <= 3)%Z) as [Hv|Hv].
    + destruct (select_cost_model_in_range v Hv) as [cm Hcm].
      rewrite (QuincyScheduler_new_selected _ _ _ _ _ Hcm) in Hret.
      injection Hret as <-. repeat split.
      unfold RunDispatcher, bind, gets, deref, modify, ret. cbn. eauto.
    + rewrite (Hfatal Hv) in Hret. done.
Qed.

End ConstructionMore.

Lemma QuincyScheduler_new_returns_iff_witness :
  exists this : @QuincyScheduler Demo.cluster,
    QuincyScheduler_new 2 Demo.empty_base Demo.topology_r "p" = inr this /\
    scheduling_lock_ this = false /\
    @QuincyScheduler_new Demo.cluster (-1) Demo.empty_base Demo.topology_r "p" =
      inl (LOG_FATAL "Unknown flow scheduling cost model specificed " (-1)).
Proof.
  destruct (@QuincyScheduler_new_returns_iff Demo.cluster 2
              Demo.empty_base Demo.topology_r "p") as ([_ Hret] & Hpost & _).
  destruct (@QuincyScheduler_new_returns_iff Demo.cluster (-1)
              Demo.empty_base Demo.topology_r "p") as (_ & _ & Hfatal).
  destruct Hret as [this Hthis]; [lia|].
  destruct (Hpost this Hthis) as (_ & Hlock & _).
  exists this. split; [exact Hthis|]. split; [exact Hlock|].
  apply Hfatal. lia.
Defined.

(** ** Printing an adjacency vector *)

Section Printing.

#[local] Instance key_le_transitive : Transitive key_le.
Proof. intros a b c. unfold key_le. apply N.le_trans. Qed.

#[local] Instance key_le_total : Total key_le.
Proof. intros a b. unfold key_le. lia. Qed.

Lemma elem_of_in_key_order (m : gmap N N) (k v : N) :
  (k, v) ∈ in_key_order m <-> m !! k = Some v.
Proof.
  unfold in_key_order. by rewrite merge_sort_Permutation, elem_of_map_to_list.
Qed.

Lemma length_in_key_order (m : gmap N N) : length (in_key_order m) = size m.
Proof.
  unfold in_key_order. by rewrite merge_sort_Permutation, length_map_to_list.
Qed.

(** A row comes out in the strict order of its keys. *)
Lemma in_key_order_strict (m : gmap N N) :
  StronglySorted (fun a b : N * N => a.1 < b.1) (in_key_order m).
Proof.
  assert (Hsorted : StronglySorted key_le (in_key_order m))
    by (apply StronglySorted_merge_sort; apply _).
  assert (Hnodup : NoDup (in_key_order m).*1).
  { unfold in_key_order. rewrite merge_sort_Permutation.
    apply NoDup_fst_map_to_list. }
  induction Hsorted as [|a l Hl IH Hall]; [constructor|].
  cbn in Hnodup. apply NoDup_cons in Hnodup as [Hnotin Hnodup].
  constructor; [by apply IH|].
  apply Forall_forall. intros b Hb.
  rewrite Forall_forall in Hall. specialize (Hall b Hb). unfold key_le in Hall.
  assert (a.1 <> b.1).
  { intros Heq. apply Hnotin. rewrite Heq. by apply list_elem_of_fmap_2. }
  lia.
Qed.

Lemma elem_of_print_row adj_map i e :
  e ∈ print_row adj_map i <->
  e.1.1 = i /\ exists row, adj_map !! i = Some row /\ row !! e.1.2 = Some e.2.
Proof.
  unfold print_row. destruct (adj_map !! i) as [row|].
  - rewrite list_elem_of_fmap. split.
    + intros ([k v] & -> & Hkv). apply elem_of_in_key_order in Hkv. cbn. eauto.
    + intros (<- & row' & [= <-] & Hkv). destruct e as [[i k] v]. cbn in *.
      exists (k, v). split; [done|]. by apply elem_of_in_key_order.
  - split; [by intros ?%elem_of_nil|]. by intros (_ & row & ? & _).
Qed.

Lemma PrintGraph_entries_rows adj_map :
  PrintGraph_entries adj_map =
    flat_map (print_row adj_map) (seq 1 (length adj_map - 1)).
Proof. reflexivity. Qed.

Lemma print_rows_length adj_map rows : forall off,
  (forall j, adj_map !! (off + j)%nat = rows !! j) ->
  length (flat_map (print_row adj_map) (seq off (length rows))) =
    sum_list_with (fun row : gmap N N => size row) rows.
Proof.
  induction rows as [|row rest IH]; intros off Hrows; [reflexivity|].
  cbn [length seq flat_map sum_list_with]. rewrite length_app. f_equal.
  - unfold print_row. specialize (Hrows 0%nat). rewrite Nat.add_0_r in Hrows.
    rewrite Hrows. cbn. by rewrite length_fmap, length_in_key_order.
  - apply IH. intros j. specialize (Hrows (S j)).
    by rewrite Nat.add_succ_r in Hrows.
Qed.

Lemma print_rows_sorted adj_map n : forall off,
  StronglySorted entry_lt (flat_map (print_row adj_map) (seq off n)).
Proof.
  induction n as [|n IH]; intros off; [constructor|].
  cbn [seq flat_map]. apply StronglySorted_app_2.
  - intros a b Ha Hb. left.
    apply elem_of_print_row in Ha as [-> _].
    apply list_elem_of_In, in_flat_map in Hb as (i & Hi & Hb).
    apply in_seq in Hi. apply list_elem_of_In, elem_of_print_row in Hb as [-> _].
    lia.
  - unfold print_row. destruct (adj_map !! off) as [row|]; [|constructor].
    eapply StronglySorted_fmap; [|apply in_key_order_strict].
    intros a b Hab. right. by split.
  - apply IH.
Qed.

(** X17. [PrintGraph] prints one line for each entry of the rows from
    index 1 on and nothing else: a line [i k v] is printed exactly when
    [i >= 1] and row [i] maps [k] to [v]. Row 0 is never printed, and an
    empty vector or a vector of one row prints nothing. *)
Theorem PrintGraph_lines (adj_map : list (gmap N N)) :
  (forall (i : nat) (k v : N),
     PrintGraph_line (i, k, v) ∈ PrintGraph adj_map <->
     (1 <= i)%nat /\ exists row, adj_map !! i = Some row /\ row !! k = Some v) /\
  length (PrintGraph adj_map) = entries_from_row_1 adj_map /\
  ((length adj_map <= 1)%nat -> PrintGraph adj_map = []).
Proof.
  assert (Hentries : forall e,
    e ∈ PrintGraph_entries adj_map <->
    (1 <= e.1.1)%nat /\
    exists row, adj_map !! e.1.1 = Some row /\ row !! e.1.2 = Some e.2).
  { intros e. rewrite PrintGraph_entries_rows, list_elem_of_In, in_flat_map.
    split.
    - intros (i & Hi & He). apply in_seq in Hi.
      apply list_elem_of_In, elem_of_print_row in He as (Hei & row & Hrow & Hkv).
      subst i. split; [lia|eauto].
    - intros (Hi & row & Hrow & Hkv). exists e.1.1. split.
      + apply in_seq. apply lookup_lt_Some in Hrow. lia.
      + apply list_elem_of_In, elem_of_print_row. eauto. }
  assert (Hinj : Inj (=) (=) PrintGraph_line).
  { intros [[i k] v] [[i' k'] v']. unfold PrintGraph_line. cbn.
    intros [= Hi -> ->]. apply Nat2N.inj in Hi. by subst. }
  split; [|split].
  - intros i k v. unfold PrintGraph. rewrite (list_elem_of_fmap_inj _).
    apply (Hentries (i, k, v)).
  - unfold PrintGraph, entries_from_row_1.
    rewrite length_fmap, PrintGraph_entries_rows.
    rewrite <- (length_drop adj_map 1).
    apply print_rows_length. intros j. by rewrite lookup_drop.
  - intros Hshort. unfold PrintGraph. rewrite PrintGraph_entries_rows.
    by replace (length adj_map - 1)%nat with 0%nat by lia.
Qed.

(** X18. The lines come out in the order of the rows and, within a row, in
    the strict order of the keys: the lines are sorted by (index, key) with
    no two lines for the same index and key. *)
Theorem PrintGraph_in_order (adj_map : list (gmap N N)) :
  PrintGraph adj_map = PrintGraph_line <$> PrintGraph_entries adj_map /\
  StronglySorted entry_lt (PrintGraph_entries adj_map).
Proof.
  split; [reflexivity|]. rewrite PrintGraph_entries_rows. apply print_rows_sorted.
Qed.

End Printing.

Lemma PrintGraph_lines_witness :
  PrintGraph_line (1%nat, 5, 7) ∈ PrintGraph [ {[ 9 := 9 ]}; {[ 5 := 7 ]} ] /\
  PrintGraph [ {[ 9 := 9 ]} ] = [].
Proof.
  destruct (PrintGraph_lines [ {[ 9 := 9 ]}; {[ 5 := 7 ]} ]) as (Hline & _ & _).
  destruct (PrintGraph_lines [ {[ 9 := 9 ]} ]) as (_ & _ & Hshort).
  split.
  - apply Hline. split; [lia|]. exists {[ 5 := 7 ]}. by split.
  - apply Hshort. cbn. lia.
Defined.
